(** * photo-reducer: the incremental processing engine of [src/cli.ts]

    A shallow embedding of the directory mode of the CLI: the resize and
    quality arithmetic, the commit of one reduced file ([shrinkImage]), the
    pass over a directory ([processDirectory]), the baseline bookkeeping
    ([runBatchProcess], [computeUpdatedLastProcessedAt]) and the watch cycle.

    Conventions of the model.
    - A JavaScript number is an IEEE 754 double.  A finite double is written
      as the rational it denotes ([Q]); the product and the quotient of two
      numbers are the exact result rounded to the nearest double
      ([toDouble]).
      Pixel counts, byte counts and time values are integers ([Z]), which
      are doubles below 2^53.  NaN and the infinities are not numbers of the
      model: [validateRate] lets only a finite rate in (0, 1] through, and
      with such a rate no product or quotient of the engine leaves the range
      of the doubles.
    - A [Date] is its time value in milliseconds, or the Invalid Date that
      [new Date(text)] gives for a text that is no date.  The dates the
      program builds itself ([new Date()], [stats.mtime], a parsed
      [--since]) are valid; the stored [lastProcessedAt] need not be.
    - The file tree is a finite map from absolute paths to regular files.
      Directories are implicit, so [ensureDir] only is a point of failure.
    - Node's [path] module, [String.prototype.toLowerCase], the [sharp]
      codec, [fast-glob] and the JSON text of the metadata record are
      libraries the program consumes: they are the fields of the class
      [Platform].
    - Any input or output call can fail.  The world carries a schedule of
      faults, one boolean per call still to come, and a call whose boolean
      is [true] throws before doing anything. *)

From Stdlib Require Import ZArith QArith Qround Qpower List Lia Lqa.
From Stdlib Require SpecFloat.
From Stdlib.Strings Require Import Byte Ascii.
From stdpp Require Import gmap strings.

Local Open Scope Z_scope.

(** ** Numbers *)

Definition pow2 (e : Z) : Q := (2 ^ e)%Q.

(** the exponent [k] of the binade of a positive [x]: [2^k <= x < 2^(k+1)] *)
Definition floor_log2 (x : Q) : Z :=
  let k := Z.log2 (Qnum x) - Z.log2 (Zpos (Qden x)) in
  if Qle_bool (pow2 k) x then k else k - 1.

(** the nearest integer, a tie going to the even one *)
Definition round_half_even (x : Q) : Z :=
  let n := Qfloor x in
  match (x - inject_Z n ?= 1 # 2)%Q with
  | Lt => n
  | Gt => n + 1
  | Eq => if Z.even n then n else n + 1
  end.

(** The exponent of the last place of the doubles around a positive [x]:
    53 significant bits, and the spacing 2^-1074 of the subnormals at the
    bottom. *)
Definition ulp_exponent (x : Q) : Z := Z.max (floor_log2 x - 52) (-1074).

Definition nearest_double (x : Q) : Q :=
  let e := ulp_exponent x in
  (inject_Z (round_half_even (x / pow2 e)) * pow2 e)%Q.

(** [toDouble x]: the double nearest to [x], a tie going to the even
    significand (IEEE 754 roundTiesToEven, the rounding of every arithmetic
    operator of JavaScript).  A result beyond the largest double would be an infinity
    and is outside the model. *)
Definition toDouble (x : Q) : Q :=
  match Qnum x with
  | 0 => 0%Q
  | Zpos _ => nearest_double x
  | Zneg _ => (- nearest_double (- x))%Q
  end.

(** [a * b] and [a / b] on numbers *)
Definition Number_mul (a b : Q) : Q := toDouble (a * b).
Definition Number_div (a b : Q) : Q := toDouble (a / b).

(** [Math.round]: the nearest integer, a tie going up.  The result is exact:
    it is computed from the double it is given. *)
Definition Math_round (x : Q) : Z := Qfloor (x + (1 # 2)).

(** ** The binary64 arithmetic of the Standard Library

    [SpecFloat] is the specification of IEEE 754 arithmetic that comes with
    the primitive floats; with precision 53 and exponent bound 1024 it is
    binary64.  It is used here to test [toDouble] only. *)
Module Binary64.

Definition of_Z (n : Z) : SpecFloat.spec_float :=
  SpecFloat.binary_normalize 53 1024 n 0 false.

Definition mul := SpecFloat.SFmul 53 1024.
Definition div := SpecFloat.SFdiv 53 1024.

Definition to_Q (f : SpecFloat.spec_float) : Q :=
  match f with
  | SpecFloat.S754_finite s m e =>
      ((if s then -1 else 1) * inject_Z (Zpos m) * pow2 e)%Q
  | _ => 0%Q
  end.

(** the quotient [n / d] and its product with [k], computed both ways *)
Definition agree (n d k : Z) : bool :=
  let x := div (of_Z n) (of_Z d) in
  Qeq_bool (to_Q x) (Number_div (inject_Z n) (inject_Z d)) &&
  Qeq_bool (to_Q (mul (of_Z k) x)) (Number_mul (inject_Z k) (to_Q x)).

End Binary64.

(** JavaScript truthiness of a number that is not NaN. *)
Definition truthy (n : Z) : bool := negb (n =? 0).

Record Resize := { width : Z; height : Z }.

(** [computeResize], cli.ts lines 502-517.  An [undefined] dimension is
    [None]; [!sourceWidth] also holds for the number 0.  [Math.max] and
    [Math.min] of integers are exact. *)
Definition computeResize (sourceWidth sourceHeight : option Z) (rate : Q)
    (maxOutputWidth : option Z) : option Resize :=
  match sourceWidth, sourceHeight with
  | Some sw, Some sh =>
      if negb (truthy sw) || negb (truthy sh) then None
      else
        let scaledWidth := Z.max 1 (Math_round (Number_mul (inject_Z sw) rate)) in
        let limitedWidth :=
          match maxOutputWidth with
          | Some m => if truthy m then Z.min scaledWidth m else scaledWidth
          | None => scaledWidth
          end in
        let appliedRate := Number_div (inject_Z limitedWidth) (inject_Z sw) in
        let scaledHeight := Z.max 1 (Math_round (Number_mul (inject_Z sh) appliedRate)) in
        Some {| width := limitedWidth; height := scaledHeight |}
  | _, _ => None
  end.

(** [clampQuality], cli.ts lines 519-521. *)
Definition clampQuality (rate : Q) : Z :=
  Z.max 30 (Z.min 90 (Math_round (Number_mul rate 100))).

(** [validateRate], cli.ts lines 110-115: the rate is returned when it lies
    in (0, 1], anything else throws. *)
Definition validateRate (rate : Q) : option Q :=
  if negb (Qle_bool rate 0) && Qle_bool rate 1 then Some rate else None.

(** [validateMaxOutputWidth], cli.ts lines 117-125. *)
Definition validateMaxOutputWidth (value : option Z) : option (option Z) :=
  match value with
  | None => Some None
  | Some v => if 0 <? v then Some (Some v) else None
  end.

(** ** Dates *)

(** A [Date] object: a time value, or the Invalid Date, whose time value is
    NaN. *)
Inductive Date :=
  | ValidDate (t : Z)
  | InvalidDate.

Coercion ValidDate : Z >-> Date.

(** [a > b] and [a <= b] on dates compare the time values, and a comparison
    with NaN is false. *)
Definition date_gt (a b : Date) : bool :=
  match a, b with
  | ValidDate x, ValidDate y => y <? x
  | _, _ => false
  end.

Definition date_le (a b : Date) : bool :=
  match a, b with
  | ValidDate x, ValidDate y => x <=? y
  | _, _ => false
  end.

(** [maxDate], cli.ts lines 390-392. *)
Definition maxDate (a b : Date) : Date := if date_gt a b then a else b.

(** [determineSince], cli.ts lines 319-321. *)
Definition determineSince (recordedAt : Date) (override : option Date) : Date :=
  match override with Some d => d | None => recordedAt end.

(** [computeUpdatedLastProcessedAt], cli.ts lines 394-409. *)
Definition computeUpdatedLastProcessedAt (recordedAt latestProcessedAt : Date)
    (processedCount : Z) (sinceOverride : option Date) (shouldWriteMetadata : bool) : Date :=
  if negb shouldWriteMetadata then recordedAt
  else if processedCount =? 0 then
    match sinceOverride with Some d => d | None => recordedAt end
  else maxDate recordedAt latestProcessedAt.

(** ** Values of the program *)

Inductive PngFormat := png | webp | avif.

(** [validatePngFormat], cli.ts lines 127-132. *)
Definition validatePngFormat (value : string) : option PngFormat :=
  if String.eqb value "png" then Some png
  else if String.eqb value "webp" then Some webp
  else if String.eqb value "avif" then Some avif
  else None.

(** The record kept in [.photo-reducer].  [lastProcessedAt] is the date
    that [new Date(record.lastProcessedAt)] reads from the stored text; the
    text [toISOString] prints for a valid date reads as that date. *)
Record MetadataRecord := { lastProcessedAt : Date; lastRate : Q }.

(** What [sharp(path).metadata()] reports. *)
Record ImageMetadata := {
  meta_width : option Z;
  meta_height : option Z;
  format : string
}.

(** The output options a [sharp] pipeline is given. *)
Inductive EncoderOptions :=
  | JpegOptions (quality : Z)
  | WebpOptions (quality : Z)
  | PngOptions (compressionLevel : Z)
  | AvifOptions (quality : Z)
  | HeifOptions (quality : Z).

Record Pipeline := {
  resizeTo : option Resize;
  encoder : option EncoderOptions
}.

(** [mtime] is the time value of the modification date. *)
Record File := { data : list byte; mtime : Z }.

Record Stats := { isFile : bool; size : Z; st_mtime : Z }.

Inductive Error :=
  | ENOENT (path : string)
  | EIO
  | CodecError
  | SyntaxError
  | SameFile
  | UsageError
  | RangeError.

Inductive LogMode := always | ifProcessed.

Inductive LogLine :=
  | LogStart (sourceDir outputDir : string) (since : Date)
  | LogFile (relative : string) (originalSize optimizedSize : Z)
  | LogFileError (relative : string) (e : Error)
  | LogTotal (processedCount : Z)
  | LogSingle (relativeName writtenPath : string) (originalSize optimizedSize : Z)
  | LogWatchStart
  | LogCycleError (e : Error).

(** ** The world and the monad of effects *)

Record World := {
  files : gmap string File;
  clock : Z;
  faults : list bool;
  console : list LogLine
}.

Definition with_files (fs : gmap string File) (w : World) : World :=
  {| files := fs; clock := clock w; faults := faults w; console := console w |}.

Definition with_faults (fl : list bool) (w : World) : World :=
  {| files := files w; clock := clock w; faults := fl; console := console w |}.

Definition with_console (c : list LogLine) (w : World) : World :=
  {| files := files w; clock := clock w; faults := faults w; console := c |}.

Definition with_clock (t : Z) (w : World) : World :=
  {| files := files w; clock := t; faults := faults w; console := console w |}.

Inductive Outcome (A : Type) :=
  | Ok (a : A)
  | Throw (e : Error).
Arguments Ok {A} a.
Arguments Throw {A} e.

Definition IO (A : Type) : Type := World -> Outcome A * World.

Definition ret {A} (a : A) : IO A := fun w => (Ok a, w).

Definition throw {A} (e : Error) : IO A := fun w => (Throw e, w).

Definition bind {A B} (m : IO A) (k : A -> IO B) : IO B :=
  fun w =>
    match m w with
    | (Ok a, w') => k a w'
    | (Throw e, w') => (Throw e, w')
    end.

(** [try { m } catch (e) { h e }] *)
Definition try_catch {A} (m : IO A) (h : Error -> IO A) : IO A :=
  fun w =>
    match m w with
    | (Ok a, w') => (Ok a, w')
    | (Throw e, w') => h e w'
    end.

Declare Scope io_scope.
Delimit Scope io_scope with io.
Notation "'let*' x ':=' m 'in' k" := (bind m (fun x => k))
  (at level 10, x name, m at level 100, k at level 200) : io_scope.
Notation "m ';;' k" := (bind m (fun _ => k))
  (at level 100, k at level 200, right associativity) : io_scope.
Local Open Scope io_scope.

(** [for (const x of xs) { body }] with the loop variables threaded as [a]. *)
Fixpoint for_of {A B} (body : A -> B -> IO A) (xs : list B) (a : A) : IO A :=
  match xs with
  | [] => ret a
  | x :: xs' => let* a' := body a x in for_of body xs' a'
  end.

(** The next entry of the fault schedule decides whether the call that is
    about to run fails; an exhausted schedule means no more faults. *)
Definition fault : IO unit := fun w =>
  match faults w with
  | [] => (Ok tt, w)
  | false :: fl => (Ok tt, with_faults fl w)
  | true :: fl => (Throw EIO, with_faults fl w)
  end.

Definition log (l : LogLine) : IO unit := fun w =>
  (Ok tt, with_console (console w ++ [l]) w).

(** [new Date()]: the time value of the current date *)
Definition now : IO Z := fun w => (Ok (clock w), w).

Definition lookup_file (p : string) : IO File := fun w =>
  match files w !! p with
  | Some f => (Ok f, w)
  | None => (Throw (ENOENT p), w)
  end.

Definition store_file (p : string) (bytes : list byte) : IO unit := fun w =>
  (Ok tt, with_files (<[p := {| data := bytes; mtime := clock w |}]> (files w)) w).

Definition drop_file (p : string) : IO unit := fun w =>
  (Ok tt, with_files (delete p (files w)) w).

(** [fs.promises.stat] *)
Definition fs_stat (p : string) : IO Stats :=
  fault ;;
  let* f := lookup_file p in
  ret {| isFile := true; size := Z.of_nat (length (data f)); st_mtime := mtime f |}.

(** [fsExtra.ensureDir] *)
Definition ensureDir (p : string) : IO unit := fault.

(** [fsExtra.remove]: removing a path that does not exist succeeds. *)
Definition remove (p : string) : IO unit := fault ;; drop_file p.

(** [fsExtra.copyFile]: copying a file onto itself succeeds and changes
    nothing. *)
Definition copyFile (src dest : string) : IO unit :=
  fault ;;
  let* f := lookup_file src in
  if String.eqb src dest then ret tt else store_file dest (data f).

Definition rename_file (src dest : string) : IO unit :=
  let* f := lookup_file src in
  if String.eqb src dest then ret tt
  else fun w => (Ok tt, with_files (<[dest := f]> (delete src (files w))) w).

(** [fsExtra.move(src, dest, { overwrite: true })]: refuses a move onto
    itself. *)
Definition move (src dest : string) : IO unit :=
  fault ;;
  if String.eqb src dest then throw SameFile else rename_file src dest.

(** [fs.promises.rename] *)
Definition fs_rename (src dest : string) : IO unit := fault ;; rename_file src dest.

(** [fs.promises.readFile] *)
Definition readFile (p : string) : IO (list byte) :=
  fault ;; let* f := lookup_file p in ret (data f).

(** [fs.promises.writeFile] *)
Definition writeFile (p : string) (bytes : list byte) : IO unit :=
  fault ;; store_file p bytes.

(** ** The libraries the program consumes *)

Class Platform := {
  (** [path.join], [path.relative], [path.dirname], [path.extname],
      [path.basename], [path.resolve] *)
  path_join : string -> string -> string;
  path_relative : string -> string -> string;
  path_dirname : string -> string;
  path_extname : string -> string;
  path_basename : string -> string;
  path_resolve : string -> string;
  (** [String.prototype.toLowerCase] *)
  toLowerCase : string -> string;
  (** what [sharp] reads from the bytes of a file, if it can decode them *)
  sharp_decode : list byte -> option ImageMetadata;
  (** the bytes [sharp] writes for a source and a configured pipeline *)
  sharp_encode : list byte -> Pipeline -> option (list byte);
  (** [fg(SUPPORTED_GLOBS, { cwd, absolute, onlyFiles, ... })] on a tree *)
  fast_glob : gmap string File -> string -> list string;
  (** [JSON.stringify] and [JSON.parse] on a metadata record; [None] is a
      text that [JSON.parse] throws on *)
  JSON_stringify : MetadataRecord -> list byte;
  JSON_parse : list byte -> option MetadataRecord
}.

Section Engine.

Context `{Platform}.

(** [sharp(sourcePath).metadata()] *)
Definition sharp_metadata (sourcePath : string) : IO ImageMetadata :=
  fault ;;
  let* f := lookup_file sourcePath in
  match sharp_decode (data f) with
  | Some m => ret m
  | None => throw CodecError
  end.

(** [sharp(sourcePath)...toFile(out)]: the source is read when the pipeline
    runs; [sharp] refuses to write onto its own input. *)
Definition sharp_toFile (sourcePath : string) (pipeline : Pipeline) (out : string)
    : IO unit :=
  fault ;;
  let* f := lookup_file sourcePath in
  if String.eqb sourcePath out then throw CodecError
  else
    match sharp_encode (data f) pipeline with
    | Some bytes => store_file out bytes
    | None => throw CodecError
    end.

(** [fg(SUPPORTED_GLOBS, options)] *)
Definition glob (sourceDir : string) : IO (list string) :=
  fault ;; fun w => (Ok (fast_glob (files w) sourceDir), w).

(** [s.slice(0, e)] *)
Definition slice0 (s : string) (e : Z) : string :=
  let len := Z.of_nat (String.length s) in
  let stop := if e <? 0 then Z.max (len + e) 0 else Z.min e len in
  String.substring 0 (Z.to_nat stop) s.

Record OutputPaths := { primaryRelativePath : string; fallbackRelativePath : string }.

(** [getOutputPaths], cli.ts lines 484-500. *)
Definition getOutputPaths (relativePath : string) (pngFormat : PngFormat) : OutputPaths :=
  let ext := toLowerCase (path_extname relativePath) in
  let base :=
    slice0 relativePath
      (Z.of_nat (String.length relativePath) - Z.of_nat (String.length ext)) in
  let fallbackRelativePath := relativePath in
  if String.eqb ext ".png" then
    match pngFormat with
    | webp => {| primaryRelativePath := base +:+ ".webp";
                 fallbackRelativePath := fallbackRelativePath |}
    | avif => {| primaryRelativePath := base +:+ ".avif";
                 fallbackRelativePath := fallbackRelativePath |}
    | png => {| primaryRelativePath := relativePath;
                fallbackRelativePath := fallbackRelativePath |}
    end
  else {| primaryRelativePath := relativePath;
          fallbackRelativePath := fallbackRelativePath |}.

(** The output options of [shrinkImage], cli.ts lines 436-460: the [switch]
    on [metadata.format]. *)
Definition selectEncoder (fmt : string) (pngFormat : PngFormat) (quality : Z)
    : option EncoderOptions :=
  if String.eqb fmt "jpeg" || String.eqb fmt "jpg" then Some (JpegOptions quality)
  else if String.eqb fmt "webp" then Some (WebpOptions quality)
  else if String.eqb fmt "png" then
    match pngFormat with
    | webp => Some (WebpOptions quality)
    | avif => Some (AvifOptions quality)
    | png => Some (PngOptions 9)
    end
  else if String.eqb fmt "avif" then Some (AvifOptions quality)
  else if String.eqb fmt "heif" then Some (HeifOptions quality)
  else None.

(** The pipeline [shrinkImage] configures, cli.ts lines 427-460. *)
Definition configurePipeline (metadata : ImageMetadata) (rate : Q)
    (maxOutputWidth : option Z) (pngFormat : PngFormat) : Pipeline :=
  let resize := computeResize (meta_width metadata) (meta_height metadata) rate maxOutputWidth in
  let quality := clampQuality rate in
  {| resizeTo :=
       match resize with
       | Some r => if truthy (width r) || truthy (height r) then Some r else None
       | None => None
       end;
     encoder := selectEncoder (format metadata) pngFormat quality |}.

Record ShrinkResult := {
  originalSize : Z;
  optimizedSize : Z;
  writtenPath : string
}.

Definition tmpPathOf (targetPath : string) : string := targetPath +:+ ".tmp".

(** [shrinkImage], cli.ts lines 411-482. *)
Definition shrinkImage (sourcePath targetPath fallbackTargetPath : string) (rate : Q)
    (maxOutputWidth : option Z) (pngFormat : PngFormat) : IO ShrinkResult :=
  ensureDir (path_dirname targetPath) ;;
  ensureDir (path_dirname fallbackTargetPath) ;;
  let* originalStats := fs_stat sourcePath in
  let* metadata := sharp_metadata sourcePath in
  let pipeline := configurePipeline metadata rate maxOutputWidth pngFormat in
  let tmpPath := tmpPathOf targetPath in
  sharp_toFile sourcePath pipeline tmpPath ;;
  let* optimizedStats := fs_stat tmpPath in
  if size originalStats <=? size optimizedStats then
    remove tmpPath ;;
    copyFile sourcePath fallbackTargetPath ;;
    let* fallbackStats := fs_stat fallbackTargetPath in
    ret {| originalSize := size originalStats;
           optimizedSize := size fallbackStats;
           writtenPath := fallbackTargetPath |}
  else
    move tmpPath targetPath ;;
    ret {| originalSize := size originalStats;
           optimizedSize := size optimizedStats;
           writtenPath := targetPath |}.

Record LoopState := {
  latestProcessedAt : Date;
  processedCount : Z;
  startedLogged : bool
}.

(** The body of the loop of [processDirectory], cli.ts lines 345-382.  The
    [stat] of the entry runs before the [try]; what the [try] block assigns
    before a throw ([startedLogged]) stays assigned in the [catch]. *)
Definition processEntry (sourceDir outputDir : string) (sinceDate : Date) (rate : Q)
    (maxOutputWidth : option Z) (pngFormat : PngFormat) (st : LoopState)
    (filePath : string) : IO LoopState :=
  let* stats := fs_stat filePath in
  if negb (isFile stats) then ret st
  else if date_le (ValidDate (st_mtime stats)) sinceDate then ret st
  else
    let relative := path_relative sourceDir filePath in
    let out := getOutputPaths relative pngFormat in
    let destination := path_join outputDir (primaryRelativePath out) in
    let fallbackDestination := path_join outputDir (fallbackRelativePath out) in
    try_catch
      ((if startedLogged st then ret tt
        else log (LogStart sourceDir outputDir sinceDate)) ;;
       let* result :=
         shrinkImage filePath destination fallbackDestination rate maxOutputWidth pngFormat in
       log (LogFile relative (originalSize result) (optimizedSize result)) ;;
       ret {| latestProcessedAt :=
                if date_gt (ValidDate (st_mtime stats)) (latestProcessedAt st)
                then ValidDate (st_mtime stats)
                else latestProcessedAt st;
              processedCount := processedCount st + 1;
              startedLogged := true |})
      (fun error =>
         log (LogFileError relative error) ;;
         ret {| latestProcessedAt := latestProcessedAt st;
                processedCount := processedCount st;
                startedLogged := true |}).

Definition isAlways (m : LogMode) : bool :=
  match m with always => true | ifProcessed => false end.

(** [processDirectory], cli.ts lines 323-388. *)
Definition processDirectory (sourceDir outputDir : string) (sinceDate : Date) (rate : Q)
    (maxOutputWidth : option Z) (pngFormat : PngFormat) (logMode : LogMode)
    : IO (Date * Z) :=
  let* entries := glob sourceDir in
  let* st :=
    for_of (processEntry sourceDir outputDir sinceDate rate maxOutputWidth pngFormat)
      entries
      {| latestProcessedAt := sinceDate; processedCount := 0;
         startedLogged := isAlways logMode |} in
  (if isAlways logMode || (0 <? processedCount st)
   then log (LogTotal (processedCount st)) else ret tt) ;;
  ret (latestProcessedAt st, processedCount st).

Record MetadataResult := { record : MetadataRecord; existed : bool }.

(** [readMetadata], cli.ts lines 523-539. *)
Definition readMetadata (metadataPath : string) : IO MetadataResult :=
  try_catch
    (let* raw := readFile metadataPath in
     match JSON_parse raw with
     | Some r => ret {| record := r; existed := true |}
     | None => throw SyntaxError
     end)
    (fun error =>
       match error with
       | ENOENT _ =>
           let* t := now in
           ret {| record := {| lastProcessedAt := ValidDate t; lastRate := toDouble (9 # 10) |};
                  existed := false |}
       | _ => throw error
       end).

(** [Date.prototype.toISOString]: the date as the record keeps it; a
    RangeError for the Invalid Date. *)
Definition toISOString (d : Date) : IO Date :=
  match d with
  | ValidDate t => ret (ValidDate t)
  | InvalidDate => throw RangeError
  end.

(** [writeMetadata], cli.ts lines 541-549. *)
Definition writeMetadata (metadataPath : string) (lastProcessedAt : Date) (rate : Q)
    : IO unit :=
  let* text := toISOString lastProcessedAt in
  let payload := {| lastProcessedAt := text; lastRate := rate |} in
  let tmpPath := metadataPath +:+ ".tmp" in
  writeFile tmpPath (JSON_stringify payload) ;;
  fs_rename tmpPath metadataPath.

Record BatchResult := {
  batch_processedCount : Z;
  updatedLastProcessedAt : Date;
  shouldWriteMetadata : bool
}.

(** [runBatchProcess], cli.ts lines 274-317. *)
Definition runBatchProcess (sourceDir outputDir : string) (rate : Q)
    (maxOutputWidth : option Z) (pngFormat : PngFormat) (metadataPath : string)
    (logMode : LogMode) (forceBaselineWrite : bool) (sinceOverride : option Date)
    : IO BatchResult :=
  let* metadataResult := readMetadata metadataPath in
  let recordedAt := lastProcessedAt (record metadataResult) in
  let sinceDate := determineSince recordedAt sinceOverride in
  (if isAlways logMode then log (LogStart sourceDir outputDir sinceDate) else ret tt) ;;
  let* result :=
    processDirectory sourceDir outputDir sinceDate rate maxOutputWidth pngFormat logMode in
  let shouldWriteMetadata :=
    (0 <? snd result) || negb (existed metadataResult) || forceBaselineWrite in
  let updatedLastProcessedAt :=
    computeUpdatedLastProcessedAt recordedAt (fst result) (snd result) sinceOverride
      shouldWriteMetadata in
  ret {| batch_processedCount := snd result;
         updatedLastProcessedAt := updatedLastProcessedAt;
         shouldWriteMetadata := shouldWriteMetadata |}.

(** [handleSingleFileMode], cli.ts lines 187-207. *)
Definition handleSingleFileMode (filePath outputDir : string) (rate : Q)
    (maxOutputWidth : option Z) (pngFormat : PngFormat) : IO unit :=
  let absoluteFile := path_resolve filePath in
  let* stats := fs_stat absoluteFile in
  if negb (isFile stats) then throw UsageError
  else
    let relativeName := path_basename absoluteFile in
    let out := getOutputPaths relativeName pngFormat in
    let destination := path_join (path_resolve outputDir) (primaryRelativePath out) in
    let fallbackDestination :=
      path_join (path_resolve outputDir) (fallbackRelativePath out) in
    let* result :=
      shrinkImage absoluteFile destination fallbackDestination rate maxOutputWidth pngFormat in
    log (LogSingle relativeName (path_basename (writtenPath result))
           (originalSize result) (optimizedSize result)).

Record WatchParams := {
  wp_sourceDir : string;
  wp_outputDir : string;
  wp_rate : Q;
  wp_maxOutputWidth : option Z;
  wp_pngFormat : PngFormat;
  wp_metadataPath : string;
  wp_sinceOverride : option Date;
  wp_forceBaselineWrite : bool;
  wp_intervalSeconds : Q
}.

(** The variables the closure [cycle] of [startWatchMode] captures. *)
Record WatchState := { processing : bool; sinceForWatch : option Date }.

(** [intervalMs], cli.ts line 223. *)
Definition intervalMs (params : WatchParams) : Z :=
  Z.max 1000 (Qfloor (Number_mul (wp_intervalSeconds params) 1000)).

(** [cycle], cli.ts lines 225-256.  A [Date] object is truthy, so
    [if (sinceForWatch)] asks whether an override is in play. *)
Definition cycle (params : WatchParams) (st : WatchState) : IO WatchState :=
  if processing st then ret st
  else
    let* since :=
      try_catch
        (let* result :=
           runBatchProcess (wp_sourceDir params) (wp_outputDir params) (wp_rate params)
             (wp_maxOutputWidth params) (wp_pngFormat params) (wp_metadataPath params)
             ifProcessed (wp_forceBaselineWrite params) (sinceForWatch st) in
         if shouldWriteMetadata result then
           writeMetadata (wp_metadataPath params) (updatedLastProcessedAt result)
             (wp_rate params) ;;
           ret (match sinceForWatch st with
                | Some _ => Some (updatedLastProcessedAt result)
                | None => None
                end)
         else ret (sinceForWatch st))
        (fun error => log (LogCycleError error) ;; ret (sinceForWatch st)) in
    ret {| processing := false; sinceForWatch := since |}.

(** [startWatchMode], cli.ts lines 209-272: the first cycle and then one
    cycle per tick of the interval timer.  Each element of [ticks] is what
    the rest of the system did to the world before that tick (time passing,
    files arriving); the timer itself never stops. *)
Fixpoint watchTicks (params : WatchParams) (ticks : list (World -> World))
    (st : WatchState) : IO WatchState :=
  match ticks with
  | [] => ret st
  | env :: ticks' =>
      fun w => (let* st' := cycle params st in watchTicks params ticks' st') (env w)
  end.

Definition startWatchMode (params : WatchParams) (ticks : list (World -> World))
    : IO WatchState :=
  log LogWatchStart ;;
  let* st := cycle params {| processing := false; sinceForWatch := wp_sinceOverride params |} in
  watchTicks params ticks st.

Record CliOptions := {
  opt_source : option string;
  opt_output : option string;
  opt_rate : Q;
  (** [--since], already read by [parseSince]: the time value of a valid
      date *)
  opt_since : option Z;
  opt_fromNow : bool;
  opt_maxOutputWidth : option Z;
  opt_pngFormat : string;
  opt_watch : bool;
  opt_interval : Q;
  opt_file : option string
}.

Definition orThrow {A} (o : option A) : IO A :=
  match o with Some a => ret a | None => throw UsageError end.

(** An option that is [undefined] or the empty string is falsy. *)
Definition given (o : option string) : option string :=
  match o with
  | Some s => if String.eqb s "" then None else Some s
  | None => None
  end.

(** [validateAndExecute], cli.ts lines 138-185.  In watch mode the model
    runs the scheduler for the given ticks. *)
Definition validateAndExecute (options : CliOptions) (ticks : list (World -> World))
    : IO unit :=
  let* rate := orThrow (validateRate (opt_rate options)) in
  let* maxOutputWidth := orThrow (validateMaxOutputWidth (opt_maxOutputWidth options)) in
  let* pngFormat := orThrow (validatePngFormat (opt_pngFormat options)) in
  match given (opt_file options) with
  | Some file =>
      match given (opt_output options) with
      | None => throw UsageError
      | Some output => handleSingleFileMode file output rate maxOutputWidth pngFormat
      end
  | None =>
      match given (opt_source options), given (opt_output options) with
      | Some source, Some output =>
          let sourceDir := path_resolve source in
          let outputDir := path_resolve output in
          let metadataPath := path_join sourceDir ".photo-reducer" in
          let sinceOverride := opt_since options in
          let* fromNowOverride :=
            (if opt_fromNow options then let* t := now in ret (Some t) else ret None) in
          let effectiveSinceOverride :=
            match fromNowOverride with
            | Some t => Some (ValidDate t)
            | None => ValidDate <$> sinceOverride
            end in
          let forceBaselineWrite :=
            match fromNowOverride with Some _ => true | None => false end in
          ensureDir outputDir ;;
          if opt_watch options then
            let* _ :=
              startWatchMode
                {| wp_sourceDir := sourceDir; wp_outputDir := outputDir;
                   wp_rate := rate; wp_maxOutputWidth := maxOutputWidth;
                   wp_pngFormat := pngFormat; wp_metadataPath := metadataPath;
                   wp_sinceOverride := effectiveSinceOverride;
                   wp_forceBaselineWrite := forceBaselineWrite;
                   wp_intervalSeconds := opt_interval options |} ticks in
            ret tt
          else
            let* result :=
              runBatchProcess sourceDir outputDir rate maxOutputWidth pngFormat
                metadataPath always forceBaselineWrite effectiveSinceOverride in
            if shouldWriteMetadata result then
              writeMetadata metadataPath (updatedLastProcessedAt result) rate
            else ret tt
      | _, _ => throw UsageError
      end
  end.

End Engine.

(** ** Vocabulary of the specifications *)

(** [wp m Q w]: running [m] in the world [w] ends, by a result or by a
    throw, in an outcome and a world that satisfy [Q]. *)
Definition wp {A} (m : IO A) (Q : Outcome A -> World -> Prop) (w : World) : Prop :=
  Q (fst (m w)) (snd (m w)).
Arguments wp : simpl never.

(** Two worlds that differ in the fault schedule only. *)
Definition same_but_faults (w w' : World) : Prop :=
  files w' = files w /\ clock w' = clock w /\ console w' = console w.

(** the spec's [clamp(x, lo, hi)] *)
Definition clamp (x lo hi : Z) : Z :=
  if x <? lo then lo else if hi <? x then hi else x.

(** the formats whose encoder the spec gives the rate-derived quality *)
Definition usesQuality (fmt : string) (pngFormat : PngFormat) : bool :=
  String.eqb fmt "jpeg" || String.eqb fmt "jpg" || String.eqb fmt "webp"
  || String.eqb fmt "avif" || String.eqb fmt "heif"
  || (String.eqb fmt "png" && match pngFormat with png => false | _ => true end).

(** what a watch cycle that caught the error [e] leaves of the world [w] *)
Definition cycleError (e : Error) (w : World) : World :=
  with_console (console w ++ [LogCycleError e]) w.


(** What a pass did with an entry: it skipped it, or it handed it to the
    commit, which returned or threw. *)
Inductive Visit :=
  | Skipped (filePath : string) (stats : Stats)
  | Handed (filePath : string) (stats : Stats) (outcome : Outcome ShrinkResult).

Definition visit_path (v : Visit) : string :=
  match v with Skipped p _ | Handed p _ _ => p end.

Definition visit_mtime (v : Visit) : Z :=
  match v with Skipped _ s | Handed _ s _ => st_mtime s end.

Definition handed (v : Visit) : bool :=
  match v with Handed _ _ _ => true | Skipped _ _ => false end.

(** the modification times of the entries a pass counts as processed: those
    whose commit returned *)
Fixpoint processedTimes (vs : list Visit) : list Z :=
  match vs with
  | [] => []
  | Handed _ s (Ok _) :: vs' => st_mtime s :: processedTimes vs'
  | _ :: vs' => processedTimes vs'
  end.

Section Vocabulary.

Context `{Platform}.

(** What a commit that returns has done. *)
Definition committed (w : World) (sourcePath targetPath fallbackTargetPath : string)
    (rate : Q) (maxOutputWidth : option Z) (pngFormat : PngFormat)
    (r : ShrinkResult) (w' : World) : Prop :=
  exists orig meta cand,
    files w !! sourcePath = Some orig /\
    sharp_decode (data orig) = Some meta /\
    sharp_encode (data orig) (configurePipeline meta rate maxOutputWidth pngFormat)
      = Some cand /\
    sourcePath <> tmpPathOf targetPath /\
    originalSize r = Z.of_nat (length (data orig)) /\
    ((Z.of_nat (length (data orig)) <= Z.of_nat (length cand) /\
      writtenPath r = fallbackTargetPath /\
      optimizedSize r = Z.of_nat (length (data orig)) /\
      files w' =
        if String.eqb sourcePath fallbackTargetPath
        then delete (tmpPathOf targetPath) (files w)
        else <[fallbackTargetPath := {| data := data orig; mtime := clock w |}]>
               (delete (tmpPathOf targetPath) (files w)))
     \/
     (Z.of_nat (length cand) < Z.of_nat (length (data orig)) /\
      writtenPath r = targetPath /\
      optimizedSize r = Z.of_nat (length cand) /\
      files w' =
        <[targetPath := {| data := cand; mtime := clock w |}]>
          (delete (tmpPathOf targetPath) (files w)))).

(** The trees a commit that throws can leave. *)
Definition abandoned (w : World) (sourcePath targetPath fallbackTargetPath : string)
    (rate : Q) (maxOutputWidth : option Z) (pngFormat : PngFormat)
    (w' : World) : Prop :=
  files w' = files w \/
  exists orig meta cand,
    files w !! sourcePath = Some orig /\
    sharp_decode (data orig) = Some meta /\
    sharp_encode (data orig) (configurePipeline meta rate maxOutputWidth pngFormat)
      = Some cand /\
    sourcePath <> tmpPathOf targetPath /\
    (files w' = <[tmpPathOf targetPath := {| data := cand; mtime := clock w |}]> (files w) \/
     files w' = delete (tmpPathOf targetPath) (files w) \/
     (sourcePath <> fallbackTargetPath /\
      files w' =
        <[fallbackTargetPath := {| data := data orig; mtime := clock w |}]>
          (delete (tmpPathOf targetPath) (files w)))).

(** the three paths a commit of [filePath] can write *)
Definition outputsOf (sourceDir outputDir : string) (pngFormat : PngFormat)
    (filePath : string) : list string :=
  let out := getOutputPaths (path_relative sourceDir filePath) pngFormat in
  [tmpPathOf (path_join outputDir (primaryRelativePath out));
   path_join outputDir (primaryRelativePath out);
   path_join outputDir (fallbackRelativePath out)].

(** the start line a watch pass prints before its first attempt *)
Definition startLine (sourceDir outputDir : string) (sinceDate : Date) (st : LoopState)
    : list LogLine :=
  if startedLogged st then [] else [LogStart sourceDir outputDir sinceDate].

(** What one turn of the loop that did not throw has done to the loop
    variables, the tree and the console. *)
Definition entry_done (sourceDir outputDir : string) (sinceDate : Date)
    (pngFormat : PngFormat) (st : LoopState) (filePath : string) (w : World)
    (st' : LoopState) (w' : World) : Prop :=
  exists f, files w !! filePath = Some f /\
    ((date_le (ValidDate (mtime f)) sinceDate = true /\
      st' = st /\ files w' = files w /\ console w' = console w)
     \/
     (date_le (ValidDate (mtime f)) sinceDate = false /\ startedLogged st' = true /\
      (forall q, ~ In q (outputsOf sourceDir outputDir pngFormat filePath) ->
                 files w' !! q = files w !! q) /\
      ((exists a b,
          console w' = console w ++ startLine sourceDir outputDir sinceDate st
                       ++ [LogFile (path_relative sourceDir filePath) a b] /\
          processedCount st' = processedCount st + 1 /\
          latestProcessedAt st' =
            if date_gt (ValidDate (mtime f)) (latestProcessedAt st)
            then ValidDate (mtime f) else latestProcessedAt st)
       \/
       (exists e,
          console w' = console w ++ startLine sourceDir outputDir sinceDate st
                       ++ [LogFileError (path_relative sourceDir filePath) e] /\
          processedCount st' = processedCount st /\
          latestProcessedAt st' = latestProcessedAt st)))).

(** What [readMetadata] found. *)
Definition metadata_read (metadataPath : string) (w : World) (res : MetadataResult) : Prop :=
  (existed res = true /\
   exists f, files w !! metadataPath = Some f /\ JSON_parse (data f) = Some (record res))
  \/
  (existed res = false /\ files w !! metadataPath = None /\
   record res = {| lastProcessedAt := ValidDate (clock w); lastRate := toDouble (9 # 10) |}).

(** the file [writeMetadata] writes in the world [w] *)
Definition recordFile (lastProcessedAt : Date) (rate : Q) (w : World) : File :=
  {| data := JSON_stringify {| lastProcessedAt := lastProcessedAt; lastRate := rate |};
     mtime := clock w |}.

(** The loop variables after the commit of an entry ended with [outcome]. *)
Definition afterCommit (st : LoopState) (stats : Stats) (outcome : Outcome ShrinkResult)
    : LoopState :=
  match outcome with
  | Ok _ =>
      {| latestProcessedAt :=
           if date_gt (ValidDate (st_mtime stats)) (latestProcessedAt st)
           then ValidDate (st_mtime stats) else latestProcessedAt st;
         processedCount := processedCount st + 1;
         startedLogged := true |}
  | Throw _ =>
      {| latestProcessedAt := latestProcessedAt st;
         processedCount := processedCount st;
         startedLogged := true |}
  end.

(** the line a pass prints for an entry it handed to the commit *)
Definition reportLine (sourceDir filePath : string) (outcome : Outcome ShrinkResult)
    : LogLine :=
  match outcome with
  | Ok r => LogFile (path_relative sourceDir filePath) (originalSize r) (optimizedSize r)
  | Throw e => LogFileError (path_relative sourceDir filePath) e
  end.

(** [visits entries st w vs o w']: from the loop variables [st] and the
    world [w], the loop of a pass over [entries] ends with [o] in the world
    [w'], and [vs] tells, entry by entry and in order, what it did.  An
    entry whose [stat] throws ends the loop with that throw.  An entry that
    is not newer than the baseline is skipped: only the call of [stat] has
    happened.  Any other entry is handed to the commit: [shrinkImage] runs
    on it, after the start line when that is still due, its outcome is
    reported on the console and the loop goes on from there. *)
Inductive visits (sourceDir outputDir : string) (sinceDate : Date) (rate : Q)
    (maxOutputWidth : option Z) (pngFormat : PngFormat)
    : list string -> LoopState -> World -> list Visit -> Outcome LoopState -> World -> Prop :=
  | visits_end st w :
      visits sourceDir outputDir sinceDate rate maxOutputWidth pngFormat
        [] st w [] (Ok st) w
  | visits_abort filePath rest st w e w1 :
      fs_stat filePath w = (Throw e, w1) ->
      visits sourceDir outputDir sinceDate rate maxOutputWidth pngFormat
        (filePath :: rest) st w [] (Throw e) w1
  | visits_skip filePath rest st w stats w1 vs o w' :
      fs_stat filePath w = (Ok stats, w1) ->
      date_le (ValidDate (st_mtime stats)) sinceDate = true ->
      visits sourceDir outputDir sinceDate rate maxOutputWidth pngFormat
        rest st w1 vs o w' ->
      visits sourceDir outputDir sinceDate rate maxOutputWidth pngFormat
        (filePath :: rest) st w (Skipped filePath stats :: vs) o w'
  | visits_commit filePath rest st w stats w1 outcome w2 vs o w' :
      fs_stat filePath w = (Ok stats, w1) ->
      date_le (ValidDate (st_mtime stats)) sinceDate = false ->
      (let out := getOutputPaths (path_relative sourceDir filePath) pngFormat in
       shrinkImage filePath (path_join outputDir (primaryRelativePath out))
         (path_join outputDir (fallbackRelativePath out)) rate maxOutputWidth pngFormat
         (with_console (console w1 ++ startLine sourceDir outputDir sinceDate st) w1)
       = (outcome, w2)) ->
      visits sourceDir outputDir sinceDate rate maxOutputWidth pngFormat
        rest (afterCommit st stats outcome)
        (with_console (console w2 ++ [reportLine sourceDir filePath outcome]) w2) vs o w' ->
      visits sourceDir outputDir sinceDate rate maxOutputWidth pngFormat
        (filePath :: rest) st w (Handed filePath stats outcome :: vs) o w'.

(** [latestProcessedAt] after the commits of files modified at [ts] returned,
    in that order *)
Definition latestOf (ts : list Z) (start : Date) : Date :=
  fold_left (fun latest t => if date_gt (ValidDate t) latest then ValidDate t else latest)
    ts start.

(** the loop variables a pass starts with *)
Definition passStart (sinceDate : Date) (logMode : LogMode) : LoopState :=
  {| latestProcessedAt := sinceDate; processedCount := 0;
     startedLogged := isAlways logMode |}.

(** what [processDirectory] does after its loop: the line with the total *)
Definition totalLine (logMode : LogMode) (st : LoopState) (w : World) : World :=
  if isAlways logMode || (0 <? processedCount st)
  then with_console (console w ++ [LogTotal (processedCount st)]) w
  else w.

(** [vs] are the visits of a pass that went through all the entries of the
    tree of [w]. *)
Definition passVisits (sourceDir outputDir : string) (sinceDate : Date) (rate : Q)
    (maxOutputWidth : option Z) (pngFormat : PngFormat) (logMode : LogMode)
    (w : World) (vs : list Visit) : Prop :=
  exists w0 st' w1,
    files w0 = files w /\ clock w0 = clock w /\
    visits sourceDir outputDir sinceDate rate maxOutputWidth pngFormat
      (fast_glob (files w) sourceDir) (passStart sinceDate logMode) w0 vs (Ok st') w1.

End Vocabulary.

(** ** A test double of the platform

    Small stand-ins for the consumed libraries, used to run the engine on
    concrete trees: POSIX-style paths, a codec that recognises a file by its
    first byte and whose lossy output keeps [quality] percent of the bytes
    while its PNG output grows by one byte, and a line-based text for the
    metadata record. *)
Module Mock.

Definition chars (s : string) : list ascii := String.list_ascii_of_string s.
Definition str (l : list ascii) : string := String.string_of_list_ascii l.

Definition is_slash (c : ascii) : bool := Ascii.eqb c "/".
Definition is_dot (c : ascii) : bool := Ascii.eqb c ".".

Definition path_join (a b : string) : string := a +:+ "/" +:+ b.

Definition path_relative (from to : string) : string :=
  if String.prefix (from +:+ "/") to
  then String.substring (S (String.length from))
         (String.length to - S (String.length from)) to
  else to.

(** the reversed last segment of a reversed path *)
Fixpoint last_segment_rev (l : list ascii) : list ascii :=
  match l with
  | [] => []
  | c :: l' => if is_slash c then [] else c :: last_segment_rev l'
  end.

Fixpoint after_last_slash_rev (l : list ascii) : list ascii :=
  match l with
  | [] => []
  | c :: l' => if is_slash c then l' else after_last_slash_rev l'
  end.

Definition path_basename (p : string) : string :=
  str (rev (last_segment_rev (rev (chars p)))).

Definition path_dirname (p : string) : string :=
  str (rev (after_last_slash_rev (rev (chars p)))).

(** the reversed extension of a reversed base name; a leading dot starts no
    extension *)
Fixpoint ext_rev (l acc : list ascii) : list ascii :=
  match l with
  | [] => []
  | c :: l' =>
      if is_dot c then match l' with [] => [] | _ => c :: acc end
      else ext_rev l' (c :: acc)
  end.

Definition path_extname (p : string) : string :=
  str (ext_rev (last_segment_rev (rev (chars p))) []).

Definition lower (c : ascii) : ascii :=
  let n := nat_of_ascii c in
  if (65 <=? n)%nat && (n <=? 90)%nat then ascii_of_nat (n + 32) else c.

Definition toLowerCase (s : string) : string := str (map lower (chars s)).

Definition sharp_decode (bytes : list byte) : option ImageMetadata :=
  match bytes with
  | xff :: _ => Some {| meta_width := Some 1000; meta_height := Some 800; format := "jpeg" |}
  | x89 :: _ => Some {| meta_width := Some 1000; meta_height := Some 800; format := "png" |}
  | _ => None
  end.

Definition lossy (bytes : list byte) (quality : Z) : list byte :=
  take (Z.to_nat (Z.of_nat (length bytes) * quality / 100)) bytes.

Definition sharp_encode (bytes : list byte) (p : Pipeline) : option (list byte) :=
  match encoder p with
  | Some (PngOptions _) => Some (bytes ++ [x00])
  | Some (JpegOptions q) | Some (WebpOptions q) | Some (AvifOptions q)
  | Some (HeifOptions q) => Some (lossy bytes q)
  | None => Some bytes
  end.

Definition supported (p : string) : bool :=
  let e := toLowerCase (path_extname p) in
  existsb (String.eqb e)
    [".jpg"; ".jpeg"; ".png"; ".webp"; ".tif"; ".tiff"; ".avif"; ".gif"; ".heic"].

Definition fast_glob (fs : gmap string File) (cwd : string) : list string :=
  filter (fun p => String.prefix (cwd +:+ "/") p && supported p = true)
    (map fst (map_to_list fs)).

(** decimal digits, least significant first *)
Fixpoint digits (fuel : nat) (n : N) : list byte :=
  match fuel with
  | O => []
  | S fuel' =>
      let d := Byte.of_N (48 + n mod 10)%N in
      match d with
      | Some b => if (n <? 10)%N then [b] else b :: digits fuel' (n / 10)%N
      | None => []
      end
  end.

Definition print_Z (z : Z) : list byte :=
  (if z <? 0 then [x2d] else []) ++ rev (digits (S (N.to_nat (N.log2 (Z.abs_N z)))) (Z.abs_N z)).

Definition read_N (l : list byte) : option N :=
  fold_left
    (fun acc b =>
       match acc with
       | Some n =>
           let c := Byte.to_N b in
           if (48 <=? c)%N && (c <=? 57)%N then Some (10 * n + (c - 48))%N else None
       | None => None
       end) l (Some 0%N).

Definition read_Z (l : list byte) : option Z :=
  match l with
  | [] => None
  | x2d :: l' => option_map (fun n => - Z.of_N n) (read_N l')
  | _ => option_map Z.of_N (read_N l)
  end.

(** the lines of a text *)
Fixpoint lines (l cur : list byte) : list (list byte) :=
  match l with
  | [] => [rev cur]
  | x0a :: l' => rev cur :: lines l' []
  | b :: l' => lines l' (b :: cur)
  end.

Definition print_Date (d : Date) : list byte :=
  match d with
  | ValidDate t => print_Z t
  | InvalidDate => [x3f]
  end.

(** a first line that is no number reads as the Invalid Date *)
Definition read_Date (l : list byte) : Date :=
  match read_Z l with
  | Some t => ValidDate t
  | None => InvalidDate
  end.

Definition JSON_stringify (r : MetadataRecord) : list byte :=
  print_Date (lastProcessedAt r) ++ [x0a] ++ print_Z (Qnum (lastRate r)) ++ [x0a]
    ++ print_Z (Zpos (Qden (lastRate r))).

Definition JSON_parse (l : list byte) : option MetadataRecord :=
  match lines l [] with
  | [a; b; c] =>
      match read_Z b, read_Z c with
      | Some n, Some (Zpos d) =>
          Some {| lastProcessedAt := read_Date a; lastRate := n # d |}
      | _, _ => None
      end
  | _ => None
  end.

#[export] Instance platform : Platform :=
  Build_Platform path_join path_relative path_dirname path_extname path_basename
    (fun p => p) toLowerCase sharp_decode sharp_encode fast_glob
    JSON_stringify JSON_parse.

(** a JPEG and a PNG of ten bytes each *)
Definition jpegBytes : list byte := [xff; xd8; x01; x02; x03; x04; x05; x06; x07; x08].
Definition pngBytes : list byte := [x89; x50; x4e; x47; x01; x02; x03; x04; x05; x06].

Definition world (fs : gmap string File) (t : Z) (fl : list bool) : World :=
  {| files := fs; clock := t; faults := fl; console := [] |}.

End Mock.

(** ** Trees and runs for the examples *)
Module Fixtures.

Import Mock.

(** a source JPEG; at rate 1/2 the candidate has five of its ten bytes *)
Definition jpegTree : gmap string File :=
  {[ "/src/a.jpg" := {| data := jpegBytes; mtime := 50 |} ]}.

(** a source PNG; re-encoded as PNG the candidate has eleven bytes *)
Definition pngTree : gmap string File :=
  {[ "/src/b.png" := {| data := pngBytes; mtime := 50 |} ]}.

Definition shrinkJpeg (fl : list bool) : Outcome ShrinkResult * World :=
  shrinkImage "/src/a.jpg" "/out/a.jpg" "/out/a.jpg" (1 # 2) None png
    (world jpegTree 100 fl).

Definition shrinkPng (fl : list bool) : Outcome ShrinkResult * World :=
  shrinkImage "/src/b.png" "/out/b.png" "/out/b.png" (1 # 2) None png
    (world pngTree 100 fl).

Definition recordBytes (t : Date) : list byte :=
  JSON_stringify {| lastProcessedAt := t; lastRate := 9 # 10 |}.

Definition metadataPath : string := "/src/.photo-reducer".

(** a source directory whose record says 1000: one file modified exactly
    then, two modified later *)
Definition tree : gmap string File :=
  {[ "/src/a.jpg" := {| data := jpegBytes; mtime := 2000 |};
     "/src/b.jpg" := {| data := jpegBytes; mtime := 3000 |};
     "/src/old.jpg" := {| data := jpegBytes; mtime := 1000 |};
     metadataPath := {| data := recordBytes 1000; mtime := 1000 |} ]}.

(** the same directory with a record whose date text is no date *)
Definition undatedTree : gmap string File :=
  <[ metadataPath :=
       {| data := JSON_stringify {| lastProcessedAt := InvalidDate; lastRate := 9 # 10 |};
          mtime := 1000 |} ]> tree.

(** a source directory without a record *)
Definition freshTree : gmap string File :=
  {[ "/src/old.jpg" := {| data := jpegBytes; mtime := 1000 |} ]}.

Definition options : CliOptions :=
  {| opt_source := Some "/src"; opt_output := Some "/out"; opt_rate := 1 # 2;
     opt_since := None; opt_fromNow := false; opt_maxOutputWidth := None;
     opt_pngFormat := "png"; opt_watch := false; opt_interval := 60;
     opt_file := None |}.

Definition withSince (d : Z) (o : CliOptions) : CliOptions :=
  {| opt_source := opt_source o; opt_output := opt_output o; opt_rate := opt_rate o;
     opt_since := Some d; opt_fromNow := opt_fromNow o;
     opt_maxOutputWidth := opt_maxOutputWidth o; opt_pngFormat := opt_pngFormat o;
     opt_watch := opt_watch o; opt_interval := opt_interval o; opt_file := opt_file o |}.

Definition withFromNow (o : CliOptions) : CliOptions :=
  {| opt_source := opt_source o; opt_output := opt_output o; opt_rate := opt_rate o;
     opt_since := opt_since o; opt_fromNow := true;
     opt_maxOutputWidth := opt_maxOutputWidth o; opt_pngFormat := opt_pngFormat o;
     opt_watch := opt_watch o; opt_interval := opt_interval o; opt_file := opt_file o |}.

Definition withWatch (o : CliOptions) : CliOptions :=
  {| opt_source := opt_source o; opt_output := opt_output o; opt_rate := opt_rate o;
     opt_since := opt_since o; opt_fromNow := opt_fromNow o;
     opt_maxOutputWidth := opt_maxOutputWidth o; opt_pngFormat := opt_pngFormat o;
     opt_watch := true; opt_interval := opt_interval o; opt_file := opt_file o |}.

(** what the record at the metadata path says *)
Definition stored (w : World) : option MetadataRecord :=
  match files w !! metadataPath with
  | Some f => JSON_parse (data f)
  | None => None
  end.

Definition run (fl : list bool) : Outcome unit * World :=
  validateAndExecute options [] (world tree 5000 fl).

Definition undatedRun : Outcome unit * World :=
  validateAndExecute options [] (world undatedTree 5000 []).

(** the pass of [run []] and the pass of a watch cycle at time 6000 in the
    world that run left *)
Definition pass : Outcome BatchResult * World :=
  runBatchProcess "/src" "/out" (1 # 2) None png metadataPath always false None
    (world tree 5000 []).


(** a first run with [--since 9000] at time 5000, in a directory without a
    record *)
Definition sinceRun : Outcome unit * World :=
  validateAndExecute (withSince 9000 options) [] (world freshTree 5000 []).

(** a second run with [--from-now] at time 6000, in the world the first
    run left *)
Definition fromNowRun : Outcome unit * World :=
  validateAndExecute (withFromNow options) [] (with_clock 6000 (snd sinceRun)).

(** watch mode started at time 5000, with timer ticks at 6000 and 7000 *)
Definition watchRun (o : CliOptions) : Outcome unit * World :=
  validateAndExecute (withWatch o) [with_clock 6000; with_clock 7000]
    (world tree 5000 []).

Definition loopStart : LoopState :=
  {| latestProcessedAt := 1000; processedCount := 0; startedLogged := true |}.



End Fixtures.

(** ** Reasoning about effects: weakest preconditions *)

Lemma wp_run {A} (m : IO A) Q w o w' : wp m Q w -> m w = (o, w') -> Q o w'.
Proof. unfold wp. intros HQ E. now rewrite E in HQ. Qed.

Lemma wp_mono {A} (m : IO A) (Q Q' : Outcome A -> World -> Prop) w :
  wp m Q w -> (forall o w', Q o w' -> Q' o w') -> wp m Q' w.
Proof. unfold wp. auto. Qed.

Lemma wp_ret {A} (a : A) Q w : Q (Ok a) w -> wp (ret a) Q w.
Proof. exact id. Qed.

Lemma wp_throw {A} e (Q : Outcome A -> World -> Prop) w :
  Q (Throw e) w -> wp (throw e) Q w.
Proof. exact id. Qed.

Lemma wp_bind {A B} (m : IO A) (k : A -> IO B) Q w :
  wp m (fun o w1 => match o with
                    | Ok a => wp (k a) Q w1
                    | Throw e => Q (Throw e) w1
                    end) w ->
  wp (bind m k) Q w.
Proof. unfold wp, bind. now destruct (m w) as [[a | e] w1]. Qed.

Lemma wp_try_catch {A} (m : IO A) (h : Error -> IO A) Q w :
  wp m (fun o w1 => match o with
                    | Ok a => Q (Ok a) w1
                    | Throw e => wp (h e) Q w1
                    end) w ->
  wp (try_catch m h) Q w.
Proof. unfold wp, try_catch. now destruct (m w) as [[a | e] w1]. Qed.

Lemma wp_fault (Q : Outcome unit -> World -> Prop) w :
  (forall fl, Q (Ok tt) (with_faults fl w)) ->
  (forall fl, Q (Throw EIO) (with_faults fl w)) ->
  wp fault Q w.
Proof.
  intros Hok Hthrow. unfold wp, fault.
  destruct (faults w) as [| [] fl] eqn:E; simpl; auto.
  specialize (Hok (faults w)). destruct w; simpl in *. exact Hok.
Qed.

Lemma wp_log l (Q : Outcome unit -> World -> Prop) w :
  Q (Ok tt) (with_console (console w ++ [l]) w) -> wp (log l) Q w.
Proof. exact id. Qed.

Lemma wp_now (Q : Outcome Z -> World -> Prop) w :
  Q (Ok (clock w)) w -> wp now Q w.
Proof. exact id. Qed.

Lemma wp_lookup_file p (Q : Outcome File -> World -> Prop) w :
  (forall f, files w !! p = Some f -> Q (Ok f) w) ->
  (files w !! p = None -> Q (Throw (ENOENT p)) w) ->
  wp (lookup_file p) Q w.
Proof.
  intros Hs Hn. unfold wp, lookup_file.
  destruct (files w !! p) as [f |] eqn:E; simpl; auto.
Qed.

Lemma wp_store_file p bytes (Q : Outcome unit -> World -> Prop) w :
  Q (Ok tt) (with_files (<[p := {| data := bytes; mtime := clock w |}]> (files w)) w) ->
  wp (store_file p bytes) Q w.
Proof. exact id. Qed.

Lemma wp_drop_file p (Q : Outcome unit -> World -> Prop) w :
  Q (Ok tt) (with_files (delete p (files w)) w) -> wp (drop_file p) Q w.
Proof. exact id. Qed.

Lemma wp_fs_stat p (Q : Outcome Stats -> World -> Prop) w :
  (forall fl f, files w !! p = Some f ->
     Q (Ok {| isFile := true; size := Z.of_nat (length (data f)); st_mtime := mtime f |})
       (with_faults fl w)) ->
  (forall fl e, Q (Throw e) (with_faults fl w)) ->
  wp (fs_stat p) Q w.
Proof.
  intros Hok Hthrow. unfold fs_stat.
  apply wp_bind, wp_fault; [| now auto]. intros fl.
  apply wp_bind, wp_lookup_file; simpl.
  - intros f Hf. apply wp_ret. now apply Hok.
  - intros _. apply Hthrow.
Qed.

Lemma wp_rename_file src dest (Q : Outcome unit -> World -> Prop) w :
  (forall f, files w !! src = Some f -> src = dest -> Q (Ok tt) w) ->
  (forall f, files w !! src = Some f -> src <> dest ->
     Q (Ok tt) (with_files (<[dest := f]> (delete src (files w))) w)) ->
  (files w !! src = None -> Q (Throw (ENOENT src)) w) ->
  wp (rename_file src dest) Q w.
Proof.
  intros Hsame Hmove Hnone. unfold rename_file.
  apply wp_bind, wp_lookup_file; [| exact Hnone].
  intros f Hf. destruct (String.eqb_spec src dest) as [-> | Hne].
  - apply wp_ret. now apply (Hsame f).
  - now apply Hmove.
Qed.

Lemma wp_remove p (Q : Outcome unit -> World -> Prop) w :
  (forall fl, Q (Ok tt) (with_files (delete p (files w)) (with_faults fl w))) ->
  (forall fl, Q (Throw EIO) (with_faults fl w)) ->
  wp (remove p) Q w.
Proof.
  intros Hok Hthrow. unfold remove.
  apply wp_bind, wp_fault; [| exact Hthrow]. intros fl. apply Hok.
Qed.

Lemma wp_copyFile src dest (Q : Outcome unit -> World -> Prop) w :
  (forall fl f, files w !! src = Some f -> src = dest -> Q (Ok tt) (with_faults fl w)) ->
  (forall fl f, files w !! src = Some f -> src <> dest ->
     Q (Ok tt)
       (with_files (<[dest := {| data := data f; mtime := clock w |}]> (files w))
          (with_faults fl w))) ->
  (forall fl e, Q (Throw e) (with_faults fl w)) ->
  wp (copyFile src dest) Q w.
Proof.
  intros Hsame Hcopy Hthrow. unfold copyFile.
  apply wp_bind, wp_fault; [| now auto]. intros fl.
  apply wp_bind, wp_lookup_file; simpl; [| now auto].
  intros f Hf. destruct (String.eqb_spec src dest) as [E | Hne].
  - apply wp_ret. now apply (Hsame fl f).
  - now apply Hcopy.
Qed.

Lemma wp_move src dest (Q : Outcome unit -> World -> Prop) w :
  (forall fl f, files w !! src = Some f -> src <> dest ->
     Q (Ok tt) (with_files (<[dest := f]> (delete src (files w))) (with_faults fl w))) ->
  (forall fl e, Q (Throw e) (with_faults fl w)) ->
  wp (move src dest) Q w.
Proof.
  intros Hok Hthrow. unfold move.
  apply wp_bind, wp_fault; [| now auto]. intros fl.
  destruct (String.eqb_spec src dest) as [E | Hne]; [now apply wp_throw |].
  apply wp_rename_file; simpl; try congruence; auto.
Qed.

Lemma wp_fs_rename src dest (Q : Outcome unit -> World -> Prop) w :
  (forall fl f, files w !! src = Some f -> src = dest -> Q (Ok tt) (with_faults fl w)) ->
  (forall fl f, files w !! src = Some f -> src <> dest ->
     Q (Ok tt) (with_files (<[dest := f]> (delete src (files w))) (with_faults fl w))) ->
  (forall fl e, Q (Throw e) (with_faults fl w)) ->
  wp (fs_rename src dest) Q w.
Proof.
  intros Hsame Hok Hthrow. unfold fs_rename.
  apply wp_bind, wp_fault; [| now auto]. intros fl.
  apply wp_rename_file; simpl; eauto.
Qed.

Lemma wp_readFile p (Q : Outcome (list byte) -> World -> Prop) w :
  (forall fl f, files w !! p = Some f -> Q (Ok (data f)) (with_faults fl w)) ->
  (files w !! p = None -> forall fl, Q (Throw (ENOENT p)) (with_faults fl w)) ->
  (forall fl, Q (Throw EIO) (with_faults fl w)) ->
  wp (readFile p) Q w.
Proof.
  intros Hok Hnone Hthrow. unfold readFile.
  apply wp_bind, wp_fault; [| now auto]. intros fl.
  apply wp_bind, wp_lookup_file; simpl; [| now auto].
  intros f Hf. apply wp_ret. now apply Hok.
Qed.

Lemma wp_writeFile p bytes (Q : Outcome unit -> World -> Prop) w :
  (forall fl,
     Q (Ok tt)
       (with_files (<[p := {| data := bytes; mtime := clock w |}]> (files w))
          (with_faults fl w))) ->
  (forall fl, Q (Throw EIO) (with_faults fl w)) ->
  wp (writeFile p bytes) Q w.
Proof.
  intros Hok Hthrow. unfold writeFile.
  apply wp_bind, wp_fault; [| now auto]. intros fl. apply Hok.
Qed.

Section Commit.

Context `{Platform}.

Lemma wp_sharp_metadata src (Q : Outcome ImageMetadata -> World -> Prop) w :
  (forall fl f m, files w !! src = Some f -> sharp_decode (data f) = Some m ->
     Q (Ok m) (with_faults fl w)) ->
  (forall fl e, Q (Throw e) (with_faults fl w)) ->
  wp (sharp_metadata src) Q w.
Proof.
  intros Hok Hthrow. unfold sharp_metadata.
  apply wp_bind, wp_fault; [| now auto]. intros fl.
  apply wp_bind, wp_lookup_file; simpl; [| now auto].
  intros f Hf. destruct (sharp_decode (data f)) as [m |] eqn:E.
  - apply wp_ret. now apply (Hok fl f).
  - now apply wp_throw.
Qed.

Lemma wp_sharp_toFile src pipeline out (Q : Outcome unit -> World -> Prop) w :
  (forall fl f bytes, files w !! src = Some f -> src <> out ->
     sharp_encode (data f) pipeline = Some bytes ->
     Q (Ok tt)
       (with_files (<[out := {| data := bytes; mtime := clock w |}]> (files w))
          (with_faults fl w))) ->
  (forall fl e, Q (Throw e) (with_faults fl w)) ->
  wp (sharp_toFile src pipeline out) Q w.
Proof.
  intros Hok Hthrow. unfold sharp_toFile.
  apply wp_bind, wp_fault; [| now auto]. intros fl.
  apply wp_bind, wp_lookup_file; simpl; [| now auto].
  intros f Hf. destruct (String.eqb_spec src out) as [E | Hne]; [now apply wp_throw |].
  destruct (sharp_encode (data f) pipeline) as [bytes |] eqn:E.
  - now apply (Hok fl f).
  - now apply wp_throw.
Qed.

Lemma shrinkImage_spec sourcePath targetPath fallbackTargetPath rate maxOutputWidth
    pngFormat w :
  wp (shrinkImage sourcePath targetPath fallbackTargetPath rate maxOutputWidth pngFormat)
     (fun o w' =>
        clock w' = clock w /\ console w' = console w /\
        match o with
        | Ok r =>
            committed w sourcePath targetPath fallbackTargetPath rate maxOutputWidth
              pngFormat r w'
        | Throw _ =>
            abandoned w sourcePath targetPath fallbackTargetPath rate maxOutputWidth
              pngFormat w'
        end) w.
Proof.
  unfold shrinkImage, ensureDir.
  assert (Hearly : forall fl,
    clock (with_faults fl w) = clock w /\ console (with_faults fl w) = console w /\
    abandoned w sourcePath targetPath fallbackTargetPath rate maxOutputWidth pngFormat
      (with_faults fl w)).
  { intros fl. repeat split. now left. }
  apply wp_bind, wp_fault; [| now auto]. intros fl1.
  apply wp_bind, wp_fault; simpl; [| intros; now apply (Hearly fl) ]. intros fl2.
  apply wp_bind, wp_fs_stat; simpl; [| intros; now apply (Hearly fl) ].
  intros fl3 orig Horig.
  apply wp_bind, wp_sharp_metadata; simpl; [| intros; now apply (Hearly fl) ].
  intros fl4 orig' meta Horig' Hmeta.
  assert (orig' = orig) as -> by congruence.
  apply wp_bind, wp_sharp_toFile; simpl; [| intros; now apply (Hearly fl) ].
  intros fl5 orig' cand Horig'' Hne Hcand.
  assert (orig' = orig) as -> by congruence.
  set (tmp := tmpPathOf targetPath) in *.
  apply wp_bind, wp_fs_stat; simpl.
  2:{ intros fl e. repeat split. right. exists orig, meta, cand.
      repeat split; auto. }
  intros fl6 tmpf Htmpf. rewrite lookup_insert_eq in Htmpf.
  injection Htmpf as <-. simpl.
  destruct (Z.leb_spec (Z.of_nat (length (data orig))) (Z.of_nat (length cand)))
    as [Hle | Hlt].
  - apply wp_bind, wp_remove; simpl.
    2:{ intros fl. repeat split. right. exists orig, meta, cand. repeat split; auto. }
    intros fl7. rewrite delete_insert_eq.
    apply wp_bind, wp_copyFile; simpl.
    3:{ intros fl e. repeat split. right. exists orig, meta, cand. repeat split; auto. }
    + intros fl8 f Hf Efb. rewrite lookup_delete_ne in Hf by auto.
      assert (f = orig) as -> by congruence.
      apply wp_bind, wp_fs_stat; simpl.
      2:{ intros fl e. repeat split. right. exists orig, meta, cand. repeat split; auto. }
      intros fl9 f Hf'. rewrite <- Efb in Hf'. rewrite lookup_delete_ne in Hf' by auto.
      assert (f = orig) as -> by congruence.
      apply wp_ret; simpl. repeat split.
      exists orig, meta, cand. do 5 (split; [solve [auto] |]). left. repeat split; auto.
      rewrite <- Efb, String.eqb_refl. reflexivity.
    + intros fl8 f Hf Hfb. rewrite lookup_delete_ne in Hf by auto.
      assert (f = orig) as -> by congruence.
      apply wp_bind, wp_fs_stat; simpl.
      2:{ intros fl e. repeat split. right. exists orig, meta, cand. repeat split; auto. }
      intros fl9 f Hf'. rewrite lookup_insert_eq in Hf'. injection Hf' as <-.
      apply wp_ret; simpl. repeat split.
      exists orig, meta, cand. do 5 (split; [solve [auto] |]). left. repeat split; auto.
      destruct (String.eqb_spec sourcePath fallbackTargetPath); [contradiction | reflexivity].
  - apply wp_bind, wp_move; simpl.
    2:{ intros fl e. repeat split. right. exists orig, meta, cand. repeat split; auto. }
    intros fl7 f Hf Htgt. rewrite lookup_insert_eq in Hf. injection Hf as <-.
    rewrite delete_insert_eq.
    apply wp_ret; simpl. repeat split.
    exists orig, meta, cand. do 5 (split; [solve [auto] |]). right. repeat split; auto.
Qed.

End Commit.

(** ** The commit of one file *)

Lemma string_length_append (a b : string) :
  String.length (a +:+ b) = (String.length a + String.length b)%nat.
Proof. induction a as [| c a IH]; simpl; [reflexivity | now rewrite IH]. Qed.

Lemma tmpPathOf_fresh (targetPath : string) : tmpPathOf targetPath <> targetPath.
Proof.
  unfold tmpPathOf. intros E. apply (f_equal String.length) in E.
  rewrite string_length_append in E. simpl in E. lia.
Qed.

Section CommitClaims.

Context `{Platform}.

(** Without faults, a commit of a source that the codec can decode and
    encode returns. *)
Lemma shrinkImage_returns sourcePath targetPath fallbackTargetPath rate maxOutputWidth
    pngFormat w orig meta cand :
  faults w = [] ->
  files w !! sourcePath = Some orig ->
  sharp_decode (data orig) = Some meta ->
  sharp_encode (data orig) (configurePipeline meta rate maxOutputWidth pngFormat)
    = Some cand ->
  sourcePath <> tmpPathOf targetPath ->
  exists r w',
    shrinkImage sourcePath targetPath fallbackTargetPath rate maxOutputWidth pngFormat w
      = (Ok r, w').
Proof.
  intros Hfaults Hsrc Hmeta Hcand Hne.
  unfold shrinkImage, ensureDir, fs_stat, sharp_metadata, sharp_toFile, remove, copyFile,
    move, rename_file, bind, fault, lookup_file, store_file, drop_file, ret, throw,
    with_files, with_faults.
  repeat (rewrite ?Hfaults, ?Hsrc, ?Hmeta; cbn).
  destruct (String.eqb_spec sourcePath (tmpPathOf targetPath)) as [E | _]; [contradiction |].
  rewrite Hcand. cbn. rewrite Hfaults. cbn. rewrite lookup_insert_eq. cbn.
  destruct (Z.of_nat (length (data orig)) <=? Z.of_nat (length cand)); cbn;
    repeat (rewrite ?Hfaults; cbn).
  - rewrite delete_insert_eq, lookup_delete_ne, Hsrc by auto.
    destruct (String.eqb_spec sourcePath fallbackTargetPath) as [<- | Hfb]; cbn;
      repeat (rewrite ?Hfaults; cbn).
    + rewrite lookup_delete_ne, Hsrc by auto. eauto.
    + rewrite lookup_insert_eq. eauto.
  - destruct (String.eqb_spec (tmpPathOf targetPath) targetPath) as [E | _];
      [now destruct (tmpPathOf_fresh targetPath) |].
    cbn. rewrite lookup_insert_eq. eauto.
Qed.
(** C1. Size-regression guard.  A commit that returns has read an original
    and encoded a candidate from it.  When the candidate is not smaller than
    the original, the path reported as written is the fallback path, the
    file there has the bytes of the original, and the candidate is gone from
    the temporary path; when the candidate is strictly smaller, the path
    reported is the primary path and the file there is the candidate, moved
    from the temporary path.  The fallback path [getOutputPaths] computes is
    the relative path it was given. *)
Theorem shrinkImage_size_regression_guard
    (sourcePath targetPath fallbackTargetPath : string) (rate : Q)
    (maxOutputWidth : option Z) (pngFormat : PngFormat) (w w' : World)
    (r : ShrinkResult) :
  shrinkImage sourcePath targetPath fallbackTargetPath rate maxOutputWidth pngFormat w
    = (Ok r, w') ->
  (forall relativePath, fallbackRelativePath (getOutputPaths relativePath pngFormat)
                        = relativePath) /\
  exists orig meta cand,
    files w !! sourcePath = Some orig /\
    sharp_decode (data orig) = Some meta /\
    sharp_encode (data orig) (configurePipeline meta rate maxOutputWidth pngFormat)
      = Some cand /\
    originalSize r = Z.of_nat (length (data orig)) /\
    (Z.of_nat (length (data orig)) <= Z.of_nat (length cand) ->
       writtenPath r = fallbackTargetPath /\
       data <$> files w' !! fallbackTargetPath = Some (data orig) /\
       optimizedSize r = Z.of_nat (length (data orig)) /\
       (fallbackTargetPath <> tmpPathOf targetPath ->
        files w' !! tmpPathOf targetPath = None)) /\
    (Z.of_nat (length cand) < Z.of_nat (length (data orig)) ->
       writtenPath r = targetPath /\
       data <$> files w' !! targetPath = Some cand /\
       optimizedSize r = Z.of_nat (length cand) /\
       files w' !! tmpPathOf targetPath = None).
Proof.
  intros Hrun. split.
  { intros relativePath. unfold getOutputPaths.
    destruct (String.eqb _ ".png"); [destruct pngFormat |]; reflexivity. }
  pose proof (wp_run _ _ _ _ _
    (shrinkImage_spec sourcePath targetPath fallbackTargetPath rate maxOutputWidth
       pngFormat w) Hrun) as (_ & _ & orig & meta & cand & Hsrc & Hmeta & Hcand & Hne
                              & Hsize & Hcases).
  exists orig, meta, cand. do 4 (split; [assumption |]).
  split.
  - intros Hle. destruct Hcases as [(_ & Hw & Hopt & Hfiles) | (Hlt & _)]; [| lia].
    split; [assumption |]. rewrite Hfiles.
    destruct (String.eqb_spec sourcePath fallbackTargetPath) as [<- | Hfb].
    + rewrite lookup_delete_ne by auto. rewrite Hsrc. repeat split; auto.
      intros _. apply lookup_delete_eq.
    + rewrite lookup_insert_eq. repeat split; auto.
      intros Htmp. rewrite lookup_insert_ne by auto. apply lookup_delete_eq.
  - intros Hlt. destruct Hcases as [(Hle & _) | (_ & Hw & Hopt & Hfiles)]; [lia |].
    split; [assumption |]. rewrite Hfiles, lookup_insert_eq. repeat split; auto.
    rewrite lookup_insert_ne by (apply not_eq_sym, tmpPathOf_fresh).
    apply lookup_delete_eq.
Qed.

(** C9, as the code has it.  A commit that throws leaves the source file
    as it was.  When no file was at the temporary path before and the
    fallback path is another one, the temporary path is empty afterwards
    unless the throw came between the encoding and the removal or rename of
    the candidate: then the tree is the old one with the candidate added at
    the temporary path. *)
Theorem shrinkImage_failure_keeps_source
    (sourcePath targetPath fallbackTargetPath : string) (rate : Q)
    (maxOutputWidth : option Z) (pngFormat : PngFormat) (w w' : World) (e : Error) :
  shrinkImage sourcePath targetPath fallbackTargetPath rate maxOutputWidth pngFormat w
    = (Throw e, w') ->
  files w' !! sourcePath = files w !! sourcePath /\
  (files w !! tmpPathOf targetPath = None ->
   fallbackTargetPath <> tmpPathOf targetPath ->
   files w' !! tmpPathOf targetPath = None \/
   exists orig meta cand,
     files w !! sourcePath = Some orig /\
     sharp_decode (data orig) = Some meta /\
     sharp_encode (data orig) (configurePipeline meta rate maxOutputWidth pngFormat)
       = Some cand /\
     files w' = <[tmpPathOf targetPath := {| data := cand; mtime := clock w |}]> (files w)).
Proof.
  intros Hrun.
  pose proof (wp_run _ _ _ _ _
    (shrinkImage_spec sourcePath targetPath fallbackTargetPath rate maxOutputWidth
       pngFormat w) Hrun) as (_ & _ & Hab).
  destruct Hab as [Hsame | (orig & meta & cand & Hsrc & Hmeta & Hcand & Hne & Hcases)].
  { rewrite Hsame. split; [reflexivity |]. intros Hfree _. now left. }
  destruct Hcases as [Hfiles | [Hfiles | (Hfb & Hfiles)]]; rewrite Hfiles.
  - split; [now rewrite lookup_insert_ne by auto |].
    intros _ _. right. exists orig, meta, cand. auto.
  - split; [now rewrite lookup_delete_ne by auto |].
    intros _ _. left. apply lookup_delete_eq.
  - split; [now rewrite lookup_insert_ne, lookup_delete_ne by auto |].
    intros _ Htmp. left. rewrite lookup_insert_ne by auto. apply lookup_delete_eq.
Qed.

End CommitClaims.

Module CommitExamples.

Import Mock Fixtures.

Example shrinkJpeg_reduces :
  fst (shrinkJpeg []) =
    Ok {| originalSize := 10; optimizedSize := 5; writtenPath := "/out/a.jpg" |} /\
  data <$> files (snd (shrinkJpeg [])) !! "/out/a.jpg" = Some (take 5 jpegBytes) /\
  files (snd (shrinkJpeg [])) !! "/out/a.jpg.tmp" = None.
Proof. vm_compute. auto. Qed.

Example shrinkPng_falls_back :
  fst (shrinkPng []) =
    Ok {| originalSize := 10; optimizedSize := 10; writtenPath := "/out/b.png" |} /\
  data <$> files (snd (shrinkPng [])) !! "/out/b.png" = Some pngBytes /\
  files (snd (shrinkPng [])) !! "/out/b.png.tmp" = None.
Proof. vm_compute. auto. Qed.

Lemma shrinkImage_size_regression_guard_witness :
  exists orig meta cand,
    files (world pngTree 100 []) !! "/src/b.png" = Some orig /\
    sharp_decode (data orig) = Some meta /\
    sharp_encode (data orig) (configurePipeline meta (1 # 2) None png) = Some cand /\
    originalSize {| originalSize := 10; optimizedSize := 10; writtenPath := "/out/b.png" |}
      = Z.of_nat (length (data orig)) /\
    (Z.of_nat (length (data orig)) <= Z.of_nat (length cand) ->
       "/out/b.png" = "/out/b.png" /\
       data <$> files (snd (shrinkPng [])) !! "/out/b.png" = Some (data orig) /\
       10 = Z.of_nat (length (data orig)) /\
       ("/out/b.png" <> tmpPathOf "/out/b.png" ->
        files (snd (shrinkPng [])) !! tmpPathOf "/out/b.png" = None)) /\
    (Z.of_nat (length cand) < Z.of_nat (length (data orig)) ->
       "/out/b.png" = "/out/b.png" /\
       data <$> files (snd (shrinkPng [])) !! "/out/b.png" = Some cand /\
       10 = Z.of_nat (length cand) /\
       files (snd (shrinkPng [])) !! tmpPathOf "/out/b.png" = None).
Proof.
  refine (proj2 (shrinkImage_size_regression_guard "/src/b.png" "/out/b.png" "/out/b.png"
            (1 # 2) None png (world pngTree 100 []) (snd (shrinkPng []))
            {| originalSize := 10; optimizedSize := 10; writtenPath := "/out/b.png" |} _)).
  vm_compute. reflexivity.
Defined.

(** C9, as the spec states it, fails: when the [stat] of the candidate
    throws (the sixth call of the commit), the candidate stays at the
    temporary path. *)
Lemma shrinkImage_leaves_tmp_behind :
  fst (shrinkJpeg [false; false; false; false; false; true]) = Throw EIO /\
  data <$> files (snd (shrinkJpeg [false; false; false; false; false; true]))
             !! "/out/a.jpg.tmp" = Some (take 5 jpegBytes).
Proof. vm_compute. auto. Qed.

(** the same after a failed rename (the seventh call) *)
Example rename_failure_leaves_candidate :
  fst (shrinkJpeg [false; false; false; false; false; false; true]) = Throw EIO /\
  is_Some (files (snd (shrinkJpeg [false; false; false; false; false; false; true]))
             !! "/out/a.jpg.tmp").
Proof. vm_compute. eauto. Qed.

Lemma shrinkImage_failure_keeps_source_witness :
  files (snd (shrinkJpeg [false; false; false; false; false; true])) !! "/src/a.jpg"
    = files (world jpegTree 100 [false; false; false; false; false; true]) !! "/src/a.jpg" /\
  (files (snd (shrinkJpeg [false; false; false; false; false; true]))
     !! tmpPathOf "/out/a.jpg" = None \/
   exists orig meta cand,
     files (world jpegTree 100 [false; false; false; false; false; true]) !! "/src/a.jpg"
       = Some orig /\
     sharp_decode (data orig) = Some meta /\
     sharp_encode (data orig) (configurePipeline meta (1 # 2) None png) = Some cand /\
     files (snd (shrinkJpeg [false; false; false; false; false; true]))
       = <[tmpPathOf "/out/a.jpg" := {| data := cand; mtime := 100 |}]> jpegTree).
Proof.
  destruct (shrinkImage_failure_keeps_source "/src/a.jpg" "/out/a.jpg" "/out/a.jpg"
              (1 # 2) None png (world jpegTree 100 [false; false; false; false; false; true])
              (snd (shrinkJpeg [false; false; false; false; false; true])) EIO)
    as [Hsource Htmp].
  - vm_compute. reflexivity.
  - split; [exact Hsource |]. apply Htmp.
    + vm_compute. reflexivity.
    + vm_compute. discriminate.
Defined.

End CommitExamples.

(** ** Rounding to the nearest double *)

Lemma pow2_pos e : (0 < pow2 e)%Q.
Proof. apply Qpower_0_lt. reflexivity. Qed.

Lemma pow2_add a b : (pow2 (a + b) == pow2 a * pow2 b)%Q.
Proof. apply Qpower_plus. discriminate. Qed.

Lemma pow2_le a b : a <= b -> (pow2 a <= pow2 b)%Q.
Proof. intros Hab. apply Qpower_le_compat_l; [exact Hab | discriminate]. Qed.

Lemma pow2_lt_inv a b : (pow2 a < pow2 b)%Q -> a < b.
Proof. intros Hab. apply (Qpower_lt_compat_l_inv 2); [exact Hab | reflexivity]. Qed.

Lemma pow2_inject n : 0 <= n -> (inject_Z (2 ^ n) == pow2 n)%Q.
Proof. intros Hn. now apply Zpower_Qpower. Qed.

Lemma Qdiv_pow2_le x y e : (x <= y)%Q -> (x / pow2 e <= y / pow2 e)%Q.
Proof.
  intros Hxy. apply Qmult_le_compat_r; [exact Hxy |].
  apply Qlt_le_weak, Qinv_lt_0_compat, pow2_pos.
Qed.

(** [floor_log2 x] is the exponent of the binade of a positive [x]. *)
Lemma floor_log2_spec (x : Q) :
  (0 < x)%Q -> (pow2 (floor_log2 x) <= x)%Q /\ (x < pow2 (floor_log2 x + 1))%Q.
Proof.
  intros Hx. unfold floor_log2.
  destruct x as [n d]. simpl Qnum. simpl Qden.
  assert (0 < n) as Hn by (unfold Qlt in Hx; simpl in Hx; lia).
  set (a := Z.log2 n). set (b := Z.log2 (Zpos d)).
  assert (0 <= a) as Ha by apply Z.log2_nonneg.
  assert (0 <= b) as Hb by apply Z.log2_nonneg.
  destruct (Z.log2_spec n Hn) as [Hn1 Hn2]. fold a in Hn1, Hn2.
  destruct (Z.log2_spec (Zpos d) ltac:(lia)) as [Hd1 Hd2]. fold b in Hd1, Hd2.
  assert (Hx' : (n # d == inject_Z n / inject_Z (Zpos d))%Q) by apply Qmake_Qdiv.
  assert (Hn1q : (pow2 a <= inject_Z n)%Q).
  { rewrite <- pow2_inject by lia. now rewrite <- Zle_Qle. }
  assert (Hn2q : (inject_Z n < pow2 (a + 1))%Q).
  { rewrite <- pow2_inject by lia. rewrite <- Zlt_Qlt. now rewrite Z.add_1_r. }
  assert (Hd1q : (pow2 b <= inject_Z (Zpos d))%Q).
  { rewrite <- pow2_inject by lia. now rewrite <- Zle_Qle. }
  assert (Hd2q : (inject_Z (Zpos d) < pow2 (b + 1))%Q).
  { rewrite <- pow2_inject by lia. rewrite <- Zlt_Qlt. now rewrite Z.add_1_r. }
  assert (Hdq : (0 < inject_Z (Zpos d))%Q) by (rewrite <- (Zlt_Qlt 0); lia).
  assert (Hmul : ((n # d) * inject_Z (Zpos d) == inject_Z n)%Q).
  { rewrite Hx'. field. intros E. rewrite E in Hdq. discriminate. }
  pose proof (pow2_pos b) as Hpb. pose proof (pow2_pos (b + 1)) as Hpb1.
  destruct (Qle_bool (pow2 (a - b)) (n # d)) eqn:E.
  - apply Qle_bool_iff in E. split; [exact E |].
    assert (Hk : (pow2 (a + 1) == pow2 (a - b + 1) * pow2 b)%Q).
    { rewrite <- pow2_add. now replace (a - b + 1 + b) with (a + 1) by lia. }
    set (X := (n # d)%Q) in *. set (D := inject_Z (Zpos d)) in *.
    set (N := inject_Z n) in *.
    apply Qnot_le_lt. intros Hge.
    assert (pow2 (a - b + 1) * pow2 b <= X * D)%Q.
    { apply Qle_trans with (X * pow2 b)%Q.
      - apply Qmult_le_compat_r; [exact Hge | now apply Qlt_le_weak].
      - rewrite !(Qmult_comm X).
        apply Qmult_le_compat_r; [exact Hd1q | now apply Qlt_le_weak]. }
    lra.
  - assert (~ (pow2 (a - b) <= n # d)%Q) as Hlt.
    { intros Hle. apply Qle_bool_iff in Hle. congruence. }
    apply Qnot_le_lt in Hlt.
    replace (a - b - 1 + 1) with (a - b) by lia. split; [| exact Hlt].
    assert (Hk : (pow2 a == pow2 (a - b - 1) * pow2 (b + 1))%Q).
    { rewrite <- pow2_add. now replace (a - b - 1 + (b + 1)) with a by lia. }
    set (X := (n # d)%Q) in *. set (D := inject_Z (Zpos d)) in *.
    set (N := inject_Z n) in *.
    apply Qnot_lt_le. intros Hlt'.
    assert (X * D < pow2 (a - b - 1) * pow2 (b + 1))%Q.
    { apply Qle_lt_trans with (X * pow2 (b + 1))%Q.
      - rewrite !(Qmult_comm X).
        apply Qmult_le_compat_r; now apply Qlt_le_weak.
      - apply Qmult_lt_compat_r; assumption. }
    lra.
Qed.

Lemma floor_log2_mono (x y : Q) :
  (0 < x)%Q -> (x <= y)%Q -> floor_log2 x <= floor_log2 y.
Proof.
  intros Hx Hxy.
  destruct (floor_log2_spec x Hx) as [Hx1 _].
  destruct (floor_log2_spec y) as [_ Hy2]; [lra |].
  assert (pow2 (floor_log2 x) < pow2 (floor_log2 y + 1))%Q as Hlt by lra.
  apply pow2_lt_inv in Hlt. lia.
Qed.

Lemma round_half_even_comp (x y : Q) : (x == y)%Q -> round_half_even x = round_half_even y.
Proof.
  intros E. unfold round_half_even. rewrite (Qfloor_comp _ _ E).
  assert ((x - inject_Z (Qfloor y) ?= 1 # 2) = (y - inject_Z (Qfloor y) ?= 1 # 2))%Q as ->.
  { apply Qcompare_comp; [now rewrite E | reflexivity]. }
  reflexivity.
Qed.

(** the nearest integer is at most one half away *)
Lemma round_half_even_nearest (x : Q) :
  (inject_Z (round_half_even x) - (1 # 2) <= x)%Q /\
  (x <= inject_Z (round_half_even x) + (1 # 2))%Q.
Proof.
  unfold round_half_even.
  pose proof (Qfloor_le x) as Hle. pose proof (Qlt_floor x) as Hlt.
  rewrite inject_Z_plus in Hlt. change (inject_Z 1) with 1%Q in Hlt.
  destruct (Qcompare_spec (x - inject_Z (Qfloor x)) (1 # 2)) as [E | E | E].
  - destruct (Z.even (Qfloor x)); rewrite ?inject_Z_plus; change (inject_Z 1) with 1%Q; lra.
  - lra.
  - rewrite inject_Z_plus. change (inject_Z 1) with 1%Q. lra.
Qed.

Lemma round_half_even_mono (x y : Q) :
  (x <= y)%Q -> round_half_even x <= round_half_even y.
Proof.
  intros Hxy.
  destruct (Z.le_gt_cases (round_half_even x) (round_half_even y)) as [Hle | Hgt];
    [exact Hle |].
  exfalso.
  destruct (round_half_even_nearest x) as [Hx _].
  destruct (round_half_even_nearest y) as [_ Hy].
  assert (inject_Z (round_half_even y) + 1 <= inject_Z (round_half_even x))%Q as Hstep.
  { change 1%Q with (inject_Z 1). rewrite <- inject_Z_plus, <- Zle_Qle. lia. }
  assert (x == y)%Q as E by lra.
  apply round_half_even_comp in E. lia.
Qed.

Lemma round_half_even_inject (n : Z) : round_half_even (inject_Z n) = n.
Proof.
  unfold round_half_even. rewrite Qfloor_Z.
  destruct (Qcompare_spec (inject_Z n - inject_Z n) (1 # 2)) as [E | E | E];
    [exfalso; lra | reflexivity | exfalso; lra].
Qed.

Lemma nearest_double_nonneg (x : Q) : (0 <= x)%Q -> (0 <= nearest_double x)%Q.
Proof.
  intros Hx. unfold nearest_double.
  apply Qmult_le_0_compat; [| apply Qlt_le_weak, pow2_pos].
  change 0%Q with (inject_Z 0). rewrite <- Zle_Qle.
  rewrite <- (round_half_even_inject 0). apply round_half_even_mono.
  apply Qle_shift_div_l; [apply pow2_pos |]. change (inject_Z 0) with 0%Q. lra.
Qed.

(** Two positive numbers in the same binade are rounded on the same grid;
    between two numbers of different binades lies a power of two, which is
    a point of both grids. *)
Lemma nearest_double_mono (x y : Q) :
  (0 < x)%Q -> (x <= y)%Q -> (nearest_double x <= nearest_double y)%Q.
Proof.
  intros Hx Hxy. assert (0 < y)%Q as Hy by lra.
  pose proof (floor_log2_mono x y Hx Hxy) as Hlog.
  destruct (floor_log2_spec x Hx) as [_ Hxu].
  destruct (floor_log2_spec y Hy) as [Hyl _].
  unfold nearest_double, ulp_exponent.
  set (ex := Z.max (floor_log2 x - 52) (-1074)).
  set (ey := Z.max (floor_log2 y - 52) (-1074)).
  assert (ex <= ey) as Hexy by lia.
  destruct (Z.eq_dec ex ey) as [E | Hne].
  - rewrite <- E. apply Qmult_le_compat_r; [| apply Qlt_le_weak, pow2_pos].
    rewrite <- Zle_Qle. apply round_half_even_mono. now apply Qdiv_pow2_le.
  - assert (ey = floor_log2 y - 52) as Hey by lia.
    apply Qle_trans with (pow2 (53 + ex)).
    + rewrite pow2_add. apply Qmult_le_compat_r; [| apply Qlt_le_weak, pow2_pos].
      rewrite <- (pow2_inject 53) by lia. rewrite <- Zle_Qle.
      rewrite <- (round_half_even_inject (2 ^ 53)). apply round_half_even_mono.
      apply Qle_shift_div_r; [apply pow2_pos |].
      rewrite (pow2_inject 53) by lia. rewrite <- pow2_add.
      apply Qlt_le_weak, (Qlt_le_trans _ _ _ Hxu), pow2_le. lia.
    + apply Qle_trans with (pow2 (52 + ey)); [apply pow2_le; lia |].
      rewrite pow2_add. apply Qmult_le_compat_r; [| apply Qlt_le_weak, pow2_pos].
      rewrite <- (pow2_inject 52) by lia. rewrite <- Zle_Qle.
      rewrite <- (round_half_even_inject (2 ^ 52)). apply round_half_even_mono.
      apply Qle_shift_div_l; [apply pow2_pos |].
      rewrite (pow2_inject 52) by lia. rewrite <- pow2_add.
      replace (52 + ey) with (floor_log2 y) by lia. exact Hyl.
Qed.

Lemma Qnum_sign (x : Q) :
  match Qnum x with
  | 0 => (x == 0)%Q
  | Zpos _ => (0 < x)%Q
  | Zneg _ => (x < 0)%Q
  end.
Proof. destruct x as [[| p | p] d]; unfold Qeq, Qlt; simpl; lia. Qed.

Lemma toDouble_sign (x : Q) :
  ((x == 0)%Q /\ toDouble x = 0%Q) \/
  ((0 < x)%Q /\ toDouble x = nearest_double x) \/
  ((x < 0)%Q /\ toDouble x = (- nearest_double (- x))%Q).
Proof.
  pose proof (Qnum_sign x) as Hs. unfold toDouble.
  destruct (Qnum x); auto.
Qed.

(** Rounding to the nearest double is monotone. *)
Lemma toDouble_mono (x y : Q) : (x <= y)%Q -> (toDouble x <= toDouble y)%Q.
Proof.
  intros Hxy.
  destruct (toDouble_sign x) as [(Hx & ->) | [(Hx & ->) | (Hx & ->)]];
    destruct (toDouble_sign y) as [(Hy & ->) | [(Hy & ->) | (Hy & ->)]];
    try (exfalso; lra).
  - lra.
  - apply nearest_double_nonneg. lra.
  - now apply nearest_double_mono.
  - pose proof (nearest_double_nonneg (- x)). lra.
  - pose proof (nearest_double_nonneg (- x)). pose proof (nearest_double_nonneg y). lra.
  - pose proof (nearest_double_mono (- y) (- x)). lra.
Qed.

(** The arithmetic of the model agrees with the binary64 arithmetic of the
    Standard Library on the rates 0.001, 0.002, ..., 1 as [parseFloat] reads
    them, multiplied by the factors the engine multiplies them with. *)
Example arithmetic_agrees_with_binary64 :
  forallb (fun n => Binary64.agree n 1000 100 && Binary64.agree n 1000 1000
                    && Binary64.agree n 1000 4032 && Binary64.agree n 1000 3024
                    && Binary64.agree n 4032 3024 && Binary64.agree n 3 7)
    (map Z.of_nat (seq 1 1000)) = true.
Proof. vm_compute. reflexivity. Qed.

(** ** Resize planning and quality *)

(** [Math_round x] is the integer [n] with [n - 1/2 <= x < n + 1/2]. *)
Lemma Math_round_nearest (x : Q) :
  (inject_Z (Math_round x) - (1 # 2) <= x)%Q /\ (x < inject_Z (Math_round x) + (1 # 2))%Q.
Proof.
  unfold Math_round.
  pose proof (Qfloor_le (x + (1 # 2))) as Hle.
  pose proof (Qlt_floor (x + (1 # 2))) as Hlt.
  rewrite inject_Z_plus in Hlt. change (inject_Z 1) with 1%Q in Hlt.
  split; lra.
Qed.

Lemma Math_round_mono (x y : Q) : (x <= y)%Q -> Math_round x <= Math_round y.
Proof.
  intros Hxy. unfold Math_round. apply Qfloor_resp_le.
  now apply Qplus_le_l.
Qed.

(** C8. The quality is [round(rate * 100)], the product being the one of
    the doubles, clamped to 30..90: it lies in that interval and does not
    decrease when the rate grows. *)
Theorem clampQuality_range_and_monotone (r : Q) :
  clampQuality r = clamp (Math_round (toDouble (r * 100))) 30 90 /\
  30 <= clampQuality r <= 90 /\
  forall r' : Q, (r <= r')%Q -> clampQuality r <= clampQuality r'.
Proof.
  unfold clampQuality, clamp, Number_mul. split; [| split].
  - destruct (Z.ltb_spec (Math_round (toDouble (r * 100))) 30);
      destruct (Z.ltb_spec 90 (Math_round (toDouble (r * 100)))); lia.
  - lia.
  - intros r' Hle.
    assert (Math_round (toDouble (r * 100)) <= Math_round (toDouble (r' * 100))).
    { apply Math_round_mono, toDouble_mono.
      apply Qmult_le_compat_r; [exact Hle | discriminate]. }
    lia.
Qed.

Lemma clampQuality_range_and_monotone_witness :
  clampQuality (1 # 4) = clamp (Math_round (toDouble ((1 # 4) * 100))) 30 90 /\
  30 <= clampQuality (1 # 4) <= 90 /\
  clampQuality (1 # 4) <= clampQuality (1 # 2).
Proof.
  destruct (clampQuality_range_and_monotone (1 # 4)) as (Hclamp & Hrange & Hmono).
  split; [exact Hclamp |]. split; [exact Hrange |].
  apply Hmono. unfold Qle. simpl. lia.
Defined.

Example clampQuality_values :
  clampQuality (toDouble (1 # 100)) = 30 /\ clampQuality (1 # 2) = 50 /\
  clampQuality (toDouble (9 # 10)) = 90 /\ clampQuality 1 = 90 /\
  clampQuality (toDouble (35 # 100)) = 35.
Proof. vm_compute. auto. Qed.

(** The product is the product of the doubles.  The double that
    [parseFloat] reads from 0.575 lies below 0.575, and so does its product
    with 100 below 57.5: the quality is 57.  The double read from 0.345 lies
    below 0.345 as well, but its product with 100 rounds to the double 34.5:
    the quality is 35, where the exact product would give 34. *)
Example clampQuality_rounds_the_double_product :
  clampQuality (toDouble (575 # 1000)) = 57 /\
  clampQuality (toDouble (345 # 1000)) = 35 /\
  (toDouble (345 # 1000) < 345 # 1000)%Q /\
  (toDouble (toDouble (345 # 1000) * 100) == 69 # 2)%Q /\
  Math_round (toDouble (345 # 1000) * 100) = 34.
Proof. vm_compute. auto. Qed.

(** C7. For a source of known positive size and a maximum width that, when
    given, is positive: the width is [max(1, round(sourceWidth * rate))], cut
    down to the maximum width, which it equals when the scaled width exceeds
    it; the height is [max(1, round(sourceHeight * appliedRate))] with
    [appliedRate = width / sourceWidth], so that two rates that give the same
    width give the same height.  The products and the quotient are those of
    the doubles.  An unknown dimension gives no plan. *)
Theorem computeResize_plan (sourceWidth sourceHeight : Z) (rate : Q)
    (maxOutputWidth : option Z) :
  0 < sourceWidth -> 0 < sourceHeight ->
  (forall m, maxOutputWidth = Some m -> 0 < m) ->
  let scaledWidth := Z.max 1 (Math_round (toDouble (inject_Z sourceWidth * rate))) in
  let limitedWidth :=
    match maxOutputWidth with Some m => Z.min scaledWidth m | None => scaledWidth end in
  let appliedRate := toDouble (inject_Z limitedWidth / inject_Z sourceWidth) in
  computeResize (Some sourceWidth) (Some sourceHeight) rate maxOutputWidth =
    Some {| width := limitedWidth;
            height := Z.max 1 (Math_round (toDouble (inject_Z sourceHeight * appliedRate))) |} /\
  (forall m, maxOutputWidth = Some m -> m < scaledWidth -> limitedWidth = m) /\
  (forall m, maxOutputWidth = Some m -> scaledWidth <= m -> limitedWidth = scaledWidth) /\
  (forall rate' plan plan',
     computeResize (Some sourceWidth) (Some sourceHeight) rate maxOutputWidth = Some plan ->
     computeResize (Some sourceWidth) (Some sourceHeight) rate' maxOutputWidth = Some plan' ->
     width plan' = width plan -> height plan' = height plan) /\
  computeResize None (Some sourceHeight) rate maxOutputWidth = None /\
  computeResize (Some sourceWidth) None rate maxOutputWidth = None /\
  computeResize None None rate maxOutputWidth = None.
Proof.
  intros Hw Hh Hmax scaledWidth limitedWidth appliedRate.
  assert (Hplan : forall rate0,
    computeResize (Some sourceWidth) (Some sourceHeight) rate0 maxOutputWidth =
      let lw :=
        match maxOutputWidth with
        | Some m => Z.min (Z.max 1 (Math_round (toDouble (inject_Z sourceWidth * rate0)))) m
        | None => Z.max 1 (Math_round (toDouble (inject_Z sourceWidth * rate0)))
        end in
      Some {| width := lw;
              height := Z.max 1 (Math_round (toDouble (inject_Z sourceHeight
                                                 * toDouble (inject_Z lw / inject_Z sourceWidth)))) |}).
  { intros rate0. unfold computeResize, truthy, Number_mul, Number_div.
    destruct (Z.eqb_spec sourceWidth 0) as [E | _]; [lia |].
    destruct (Z.eqb_spec sourceHeight 0) as [E | _]; [lia |]. simpl.
    destruct maxOutputWidth as [m |]; [| reflexivity].
    specialize (Hmax m eq_refl). destruct (Z.eqb_spec m 0); [lia | reflexivity]. }
  split; [apply Hplan |].
  split; [intros m -> Hlt; subst limitedWidth; lia |].
  split; [intros m -> Hle; subst limitedWidth; lia |].
  split; [| now repeat split].
  intros rate' plan plan'. rewrite !Hplan. cbv zeta.
  intros [= <-] [= <-]. simpl. intros ->. reflexivity.
Qed.

Lemma computeResize_plan_witness :
  computeResize (Some 1000) (Some 800) (toDouble (9 # 10)) (Some 300) =
    Some {| width := 300; height := 240 |} /\
  Z.max 1 (Math_round (toDouble (inject_Z 1000 * toDouble (9 # 10)))) = 900.
Proof.
  split; [| vm_compute; reflexivity].
  destruct (computeResize_plan 1000 800 (toDouble (9 # 10)) (Some 300)) as (Hplan & _);
    [lia | lia | intros m [= <-]; lia |].
  rewrite Hplan. vm_compute. reflexivity.
Defined.

(** Plans on doubles: a halved source, a tiny source, no plan for a width
    of 0, and two plans whose height the rounding of the quotient decides
    (575/1000 and 1290/4032 are no doubles). *)
Example computeResize_values :
  computeResize (Some 1000) (Some 800) (1 # 2) None = Some {| width := 500; height := 400 |} /\
  computeResize (Some 3) (Some 1) (toDouble (1 # 10)) None = Some {| width := 1; height := 1 |} /\
  computeResize (Some 0) (Some 800) (1 # 2) None = None /\
  computeResize (Some 1000) (Some 100) 1 (Some 575) = Some {| width := 575; height := 57 |} /\
  computeResize (Some 4032) (Some 3024) (toDouble (32 # 100)) None =
    Some {| width := 1290; height := 967 |}.
Proof. vm_compute. auto. Qed.
(** ** The encoder options *)

(** C10. A PNG source written as PNG gets the fixed compression level 9
    whatever the rate; two rates that plan the same resize configure the same
    pipeline for it; and the options chosen for a format depend on the
    quality exactly for JPEG, WEBP, AVIF, HEIF and a PNG source written as
    WEBP or AVIF. *)
Theorem png_native_ignores_quality (metadata : ImageMetadata) (rate : Q)
    (maxOutputWidth : option Z) :
  format metadata = "png" ->
  encoder (configurePipeline metadata rate maxOutputWidth png) = Some (PngOptions 9) /\
  (forall rate' : Q,
     computeResize (meta_width metadata) (meta_height metadata) rate' maxOutputWidth =
       computeResize (meta_width metadata) (meta_height metadata) rate maxOutputWidth ->
     configurePipeline metadata rate' maxOutputWidth png =
       configurePipeline metadata rate maxOutputWidth png) /\
  (forall fmt pngFormat q q', q <> q' ->
     (selectEncoder fmt pngFormat q = selectEncoder fmt pngFormat q' <->
      usesQuality fmt pngFormat = false)).
Proof.
  intros Hfmt. split; [| split].
  - unfold configurePipeline. simpl. now rewrite Hfmt.
  - intros rate' Hresize. unfold configurePipeline. rewrite Hresize, Hfmt. reflexivity.
  - intros fmt pngFormat q q' Hq. unfold selectEncoder, usesQuality.
    destruct (String.eqb_spec fmt "jpeg"), (String.eqb_spec fmt "jpg"),
      (String.eqb_spec fmt "webp"), (String.eqb_spec fmt "png"),
      (String.eqb_spec fmt "avif"), (String.eqb_spec fmt "heif"),
      pngFormat; simpl; split; intros E; congruence.
Qed.

Lemma png_native_ignores_quality_witness :
  encoder (configurePipeline
             {| meta_width := Some 1000; meta_height := Some 800; format := "png" |}
             (1 # 2) None png) = Some (PngOptions 9) /\
  selectEncoder "png" png (clampQuality (1 # 2)) = selectEncoder "png" png (clampQuality 1) /\
  selectEncoder "png" webp (clampQuality (1 # 2)) <> selectEncoder "png" webp (clampQuality 1).
Proof.
  destruct (png_native_ignores_quality
              {| meta_width := Some 1000; meta_height := Some 800; format := "png" |}
              (1 # 2) None eq_refl) as (Henc & _ & Hq).
  split; [exact Henc |]. split.
  - apply (Hq "png" png); [vm_compute; discriminate | reflexivity].
  - intros E. apply (Hq "png" webp) in E; [discriminate E | vm_compute; discriminate].
Defined.

(** ** One pass over a directory *)

Lemma wp_for_of {A B} (body : A -> B -> IO A) (I : A -> World -> Prop)
    (Q : Outcome A -> World -> Prop) (xs : list B) :
  (forall a x w, In x xs -> I a w ->
     wp (body a x) (fun o w' => match o with
                                | Ok a' => I a' w'
                                | Throw e => Q (Throw e) w'
                                end) w) ->
  (forall a w, I a w -> Q (Ok a) w) ->
  forall a w, I a w -> wp (for_of body xs a) Q w.
Proof.
  induction xs as [| x xs IH]; intros Hbody Hend a w HI; simpl.
  - apply wp_ret. auto.
  - apply wp_bind. eapply wp_mono; [apply (Hbody a x w); simpl; auto |].
    intros [a' | e] w' Hpost; [| exact Hpost].
    apply IH; auto. intros a0 x0 w0 Hin. apply Hbody. simpl. auto.
Qed.

Lemma with_console_nil (w : World) : with_console (console w ++ []) w = w.
Proof. destruct w. unfold with_console. simpl. now rewrite app_nil_r. Qed.

(** the baseline a pass hands on when its first date is valid, and when it
    is not *)
Lemma latestOf_valid (ts : list Z) (l : Z) :
  latestOf ts (ValidDate l) = ValidDate (fold_left Z.max ts l).
Proof.
  revert l. induction ts as [| t ts IH]; intros l; simpl; [reflexivity |].
  destruct (Z.ltb_spec l t).
  - rewrite IH. f_equal. f_equal. lia.
  - rewrite IH. f_equal. f_equal. lia.
Qed.

Lemma latestOf_invalid (ts : list Z) : latestOf ts InvalidDate = InvalidDate.
Proof. induction ts as [| t ts IH]; simpl; [reflexivity | exact IH]. Qed.

Lemma fold_left_max_bounds (ts : list Z) (l : Z) :
  l <= fold_left Z.max ts l /\
  (forall t, In t ts -> t <= fold_left Z.max ts l) /\
  (fold_left Z.max ts l = l \/ In (fold_left Z.max ts l) ts).
Proof.
  revert l. induction ts as [| t ts IH]; intros l; simpl.
  - split; [lia |]. split; [intros t [] | now left].
  - destruct (IH (Z.max l t)) as (Hl & Hall & Hin).
    split; [lia |]. split.
    + intros t' [<- | Ht']; [lia | auto].
    + destruct Hin as [E | Hin]; [| auto].
      rewrite E. destruct (Z.max_spec l t) as [(_ & ->) | (_ & ->)]; auto.
Qed.

Section Pass.

Context `{Platform}.

Lemma committed_frame w s t f rate mw fmt r w' q :
  committed w s t f rate mw fmt r w' ->
  q <> tmpPathOf t -> q <> t -> q <> f -> files w' !! q = files w !! q.
Proof.
  intros (orig & meta & cand & _ & _ & _ & _ & _ & Hcases) Htmp Ht Hf.
  destruct Hcases as [(_ & _ & _ & ->) | (_ & _ & _ & ->)].
  - destruct (String.eqb s f).
    + now rewrite lookup_delete_ne.
    + now rewrite lookup_insert_ne, lookup_delete_ne.
  - now rewrite lookup_insert_ne, lookup_delete_ne.
Qed.

Lemma abandoned_frame w s t f rate mw fmt w' q :
  abandoned w s t f rate mw fmt w' ->
  q <> tmpPathOf t -> q <> f -> files w' !! q = files w !! q.
Proof.
  intros [-> | (orig & meta & cand & _ & _ & _ & _ & Hcases)] Htmp Hf; [reflexivity |].
  destruct Hcases as [-> | [-> | (_ & ->)]].
  - now rewrite lookup_insert_ne.
  - now rewrite lookup_delete_ne.
  - now rewrite lookup_insert_ne, lookup_delete_ne.
Qed.

Lemma fs_stat_ok_inv filePath w stats w1 :
  fs_stat filePath w = (Ok stats, w1) ->
  exists f, files w !! filePath = Some f /\ st_mtime stats = mtime f /\
            size stats = Z.of_nat (length (data f)) /\ isFile stats = true /\
            same_but_faults w w1.
Proof.
  unfold fs_stat, bind, fault, lookup_file, ret, same_but_faults.
  destruct (faults w) as [| [] fl]; simpl; try discriminate;
    destruct (files w !! filePath) as [f |] eqn:E; simpl; try discriminate;
    intros [= <- <-]; exists f; simpl; repeat split; auto.
Qed.

(** A turn of the loop whose [stat] throws lets the throw through, and the
    loop ends with it: the entries that follow are not visited. *)
Lemma processEntry_stat_failure sourceDir outputDir sinceDate rate maxOutputWidth
    pngFormat st filePath w e w1 :
  fs_stat filePath w = (Throw e, w1) ->
  processEntry sourceDir outputDir sinceDate rate maxOutputWidth pngFormat st filePath w
    = (Throw e, w1).
Proof. intros Hstat. unfold processEntry, bind. now rewrite Hstat. Qed.

(** A turn of the loop whose [stat] succeeded does not throw.  It skips an
    entry that is not newer than the baseline; it hands any other entry to
    the commit, and whatever the commit throws is caught and reported. *)
Lemma processEntry_stat_success sourceDir outputDir sinceDate rate maxOutputWidth
    pngFormat st filePath w stats w1 :
  fs_stat filePath w = (Ok stats, w1) ->
  processEntry sourceDir outputDir sinceDate rate maxOutputWidth pngFormat st filePath w =
    if date_le (ValidDate (st_mtime stats)) sinceDate then (Ok st, w1)
    else
      let out := getOutputPaths (path_relative sourceDir filePath) pngFormat in
      let run :=
        shrinkImage filePath (path_join outputDir (primaryRelativePath out))
          (path_join outputDir (fallbackRelativePath out)) rate maxOutputWidth pngFormat
          (with_console (console w1 ++ startLine sourceDir outputDir sinceDate st) w1) in
      (Ok (afterCommit st stats (fst run)),
       with_console (console (snd run) ++ [reportLine sourceDir filePath (fst run)])
         (snd run)).
Proof.
  intros Hstat.
  destruct (fs_stat_ok_inv _ _ _ _ Hstat) as (_ & _ & _ & _ & HisFile & _).
  unfold processEntry. unfold bind at 1. rewrite Hstat, HisFile. cbn [negb].
  destruct (date_le (ValidDate (st_mtime stats)) sinceDate); [reflexivity |].
  cbv zeta. unfold try_catch, startLine. unfold bind at 1.
  destruct (startedLogged st).
  - unfold ret at 1. rewrite with_console_nil. unfold bind at 1.
    destruct (shrinkImage _ _ _ _ _ _ w1) as [[r | e] w2]; reflexivity.
  - unfold log at 1. unfold bind at 1.
    destruct (shrinkImage _ _ _ _ _ _ _) as [[r | e] w2]; reflexivity.
Qed.

Lemma processEntry_spec sourceDir outputDir sinceDate rate maxOutputWidth pngFormat st
    filePath w :
  wp (processEntry sourceDir outputDir sinceDate rate maxOutputWidth pngFormat st filePath)
     (fun o w' =>
        clock w' = clock w /\
        match o with
        | Ok st' => entry_done sourceDir outputDir sinceDate pngFormat st filePath w st' w'
        | Throw _ => files w' = files w /\ console w' = console w
        end) w.
Proof.
  unfold processEntry.
  apply wp_bind, wp_fs_stat; [| now auto].
  intros fl f Hf. cbn [isFile st_mtime negb].
  destruct (date_le (ValidDate (mtime f)) sinceDate) eqn:Hsel.
  { apply wp_ret. split; [reflexivity |]. exists f. split; [exact Hf |]. left. auto. }
  set (relative := path_relative sourceDir filePath).
  set (out := getOutputPaths relative pngFormat).
  apply wp_try_catch, wp_bind.
  assert (Hgo : forall w1 : World,
    clock w1 = clock w -> files w1 = files w ->
    console w1 = console w ++ startLine sourceDir outputDir sinceDate st ->
    wp (let* result :=
          shrinkImage filePath (path_join outputDir (primaryRelativePath out))
            (path_join outputDir (fallbackRelativePath out)) rate maxOutputWidth pngFormat in
        log (LogFile relative (originalSize result) (optimizedSize result)) ;;
        ret {| latestProcessedAt :=
                 if date_gt (ValidDate (mtime f)) (latestProcessedAt st)
                 then ValidDate (mtime f) else latestProcessedAt st;
               processedCount := processedCount st + 1;
               startedLogged := true |})
       (fun o w1' =>
          match o with
          | Ok a =>
              clock w1' = clock w /\
              entry_done sourceDir outputDir sinceDate pngFormat st filePath w a w1'
          | Throw e =>
              wp (log (LogFileError relative e) ;;
                  ret {| latestProcessedAt := latestProcessedAt st;
                         processedCount := processedCount st;
                         startedLogged := true |})
                 (fun o' w'' =>
                    clock w'' = clock w /\
                    match o' with
                    | Ok st' =>
                        entry_done sourceDir outputDir sinceDate pngFormat st filePath w st' w''
                    | Throw _ => files w'' = files w /\ console w'' = console w
                    end) w1'
          end) w1).
  { intros w1 Hclock Hfiles Hconsole.
    apply wp_bind. eapply wp_mono; [apply shrinkImage_spec |].
    intros [r | e] w2 (Hclock2 & Hconsole2 & Hres).
    - apply wp_bind, wp_log, wp_ret. simpl.
      split; [congruence |]. exists f. split; [exact Hf |]. right.
      split; [exact Hsel |]. split; [reflexivity |]. split.
      + intros q Hq. rewrite <- Hfiles.
        eapply committed_frame; [exact Hres | | |];
          intros ->; apply Hq; unfold outputsOf; fold relative; fold out; simpl; auto.
      + left. exists (originalSize r), (optimizedSize r). simpl.
        rewrite Hconsole2, Hconsole, <- app_assoc. repeat split.
    - apply wp_bind, wp_log, wp_ret. simpl.
      split; [congruence |]. exists f. split; [exact Hf |]. right.
      split; [exact Hsel |]. split; [reflexivity |]. split.
      + intros q Hq. rewrite <- Hfiles.
        eapply abandoned_frame; [exact Hres | |];
          intros ->; apply Hq; unfold outputsOf; fold relative; fold out; simpl; auto.
      + right. exists e. simpl. rewrite Hconsole2, Hconsole, <- app_assoc. auto. }
  unfold startLine in Hgo.
  destruct (startedLogged st).
  - apply wp_ret. apply Hgo; simpl; auto. now rewrite app_nil_r.
  - apply wp_log. apply Hgo; simpl; auto.
Qed.

Lemma for_of_throw {A B} (body : A -> B -> IO A) x xs a w e w1 :
  body a x w = (Throw e, w1) -> for_of body (x :: xs) a w = (Throw e, w1).
Proof. intros Hbody. simpl. unfold bind. now rewrite Hbody. Qed.

(** The loop of a pass, entry by entry. *)
Lemma for_of_visits sourceDir outputDir sinceDate rate maxOutputWidth pngFormat entries :
  forall st w,
  exists vs,
    visits sourceDir outputDir sinceDate rate maxOutputWidth pngFormat entries st w vs
      (fst (for_of (processEntry sourceDir outputDir sinceDate rate maxOutputWidth pngFormat)
              entries st w))
      (snd (for_of (processEntry sourceDir outputDir sinceDate rate maxOutputWidth pngFormat)
              entries st w)).
Proof.
  induction entries as [| p ps IH]; intros st w.
  - exists []. apply visits_end.
  - cbn [for_of]. unfold bind at 1 2.
    destruct (fs_stat p w) as [[stats | e] w1] eqn:Hstat.
    + rewrite (processEntry_stat_success _ _ _ _ _ _ _ _ _ _ _ Hstat).
      destruct (date_le (ValidDate (st_mtime stats)) sinceDate) eqn:Hsel.
      * cbv beta iota.
        destruct (IH st w1) as (vs & Hvs).
        exists (Skipped p stats :: vs). eapply visits_skip; eauto.
      * cbv beta iota zeta.
        match goal with
        | |- context [for_of _ ps ?st1 ?w3] => destruct (IH st1 w3) as (vs & Hvs)
        end.
        eexists (Handed p stats _ :: vs).
        eapply visits_commit; [exact Hstat | exact Hsel | | exact Hvs].
        cbv zeta. apply surjective_pairing.
    + rewrite (processEntry_stat_failure _ _ _ _ _ _ _ _ _ _ _ Hstat).
      exists []. now apply visits_abort.
Qed.

(** Which entries a pass hands to the commit. *)
Lemma visits_selection sourceDir outputDir sinceDate rate maxOutputWidth pngFormat
    entries st w vs o w' :
  visits sourceDir outputDir sinceDate rate maxOutputWidth pngFormat entries st w vs o w' ->
  forall v, In v vs ->
    handed v = negb (date_le (ValidDate (visit_mtime v)) sinceDate).
Proof.
  induction 1 as [| | p ps st w stats w1 vs o w' Hstat Hsel _ IH
                  | p ps st w stats w1 outcome w2 vs o w' Hstat Hsel _ _ IH];
    intros v Hin; simpl in Hin; try contradiction.
  - destruct Hin as [<- | Hin]; [cbn [handed visit_mtime]; now rewrite Hsel | auto].
  - destruct Hin as [<- | Hin]; [cbn [handed visit_mtime]; now rewrite Hsel | auto].
Qed.

(** A loop that ends has visited every entry, in order; a loop that throws
    has stopped at the entry after the last visit. *)
Lemma visits_paths sourceDir outputDir sinceDate rate maxOutputWidth pngFormat
    entries st w vs o w' :
  visits sourceDir outputDir sinceDate rate maxOutputWidth pngFormat entries st w vs o w' ->
  match o with
  | Ok _ => map visit_path vs = entries
  | Throw _ => exists p rest, entries = map visit_path vs ++ p :: rest
  end.
Proof.
  induction 1 as [| p ps st w e w1 Hstat | p ps st w stats w1 vs o w' Hstat Hsel _ IH
                  | p ps st w stats w1 outcome w2 vs o w' Hstat Hsel _ _ IH]; simpl.
  - reflexivity.
  - now exists p, ps.
  - destruct o; [now rewrite IH |].
    destruct IH as (q & rest & ->). now exists q, rest.
  - destruct o; [now rewrite IH |].
    destruct IH as (q & rest & ->). now exists q, rest.
Qed.

(** The count and the latest date of a loop that ends. *)
Lemma visits_totals sourceDir outputDir sinceDate rate maxOutputWidth pngFormat
    entries st w vs o w' :
  visits sourceDir outputDir sinceDate rate maxOutputWidth pngFormat entries st w vs o w' ->
  forall st', o = Ok st' ->
    processedCount st' = processedCount st + Z.of_nat (length (processedTimes vs)) /\
    latestProcessedAt st' = latestOf (processedTimes vs) (latestProcessedAt st).
Proof.
  induction 1 as [| | p ps st w stats w1 vs o w' Hstat Hsel _ IH
                  | p ps st w stats w1 outcome w2 vs o w' Hstat Hsel _ _ IH];
    intros st' Ho.
  - injection Ho as <-. simpl. split; [lia | reflexivity].
  - discriminate.
  - simpl. auto.
  - destruct (IH st' Ho) as (Hcount & Hlatest).
    destruct outcome as [r | e]; cbn [processedTimes afterCommit] in *;
      cbn [processedCount latestProcessedAt] in *.
    + split; [rewrite Hcount; cbn [length]; lia | exact Hlatest].
    + auto.
Qed.

(** What a pass leaves of the world. *)
Lemma visits_frame sourceDir outputDir sinceDate rate maxOutputWidth pngFormat
    entries st w vs o w' :
  visits sourceDir outputDir sinceDate rate maxOutputWidth pngFormat entries st w vs o w' ->
  clock w' = clock w /\
  forall q, (forall p, In p entries -> ~ In q (outputsOf sourceDir outputDir pngFormat p)) ->
            files w' !! q = files w !! q.
Proof.
  induction 1 as [| p ps st w e w1 Hstat | p ps st w stats w1 vs o w' Hstat Hsel _ IH
                  | p ps st w stats w1 outcome w2 vs o w' Hstat Hsel Hrun _ IH].
  - auto.
  - pose proof (wp_run _ _ _ _ _ (wp_fs_stat p
      (fun _ w1 => clock w1 = clock w /\ files w1 = files w) w
      ltac:(intros; simpl; auto) ltac:(intros; simpl; auto)) Hstat) as (Hc & Hf).
    split; [exact Hc |]. intros q _. now rewrite Hf.
  - destruct (fs_stat_ok_inv _ _ _ _ Hstat) as (_ & _ & _ & _ & _ & Hf & Hc & _).
    destruct IH as (IHc & IHf). split; [congruence |].
    intros q Hq. rewrite IHf, Hf; [reflexivity |]. intros p' Hp'. apply Hq. now right.
  - destruct (fs_stat_ok_inv _ _ _ _ Hstat) as (_ & _ & _ & _ & _ & Hf & Hc & _).
    destruct IH as (IHc & IHf). cbv zeta in Hrun.
    pose proof (wp_run _ _ _ _ _ (shrinkImage_spec _ _ _ _ _ _ _) Hrun)
      as (Hc2 & _ & Hres).
    simpl in Hc2, IHc. split; [congruence |].
    intros q Hq. rewrite IHf by (intros p' Hp'; apply Hq; now right).
    simpl. rewrite <- Hf.
    assert (Hout : ~ In q (outputsOf sourceDir outputDir pngFormat p))
      by (apply Hq; now left).
    unfold outputsOf in Hout. simpl in Hout.
    destruct outcome as [r | e].
    + eapply (committed_frame _ _ _ _ _ _ _ _ _ q) in Hres; [exact Hres | | |];
        intros ->; apply Hout; auto.
    + eapply (abandoned_frame _ _ _ _ _ _ _ _ q) in Hres; [exact Hres | |];
        intros ->; apply Hout; auto.
Qed.

Lemma glob_inv sourceDir w o w0 :
  glob sourceDir w = (o, w0) ->
  files w0 = files w /\ clock w0 = clock w /\ console w0 = console w /\
  (o = Ok (fast_glob (files w) sourceDir) \/ o = Throw EIO).
Proof.
  unfold glob, bind, fault.
  destruct (faults w) as [| [] fl]; simpl; intros [= <- <-]; simpl; auto.
Qed.

(** [processDirectory] is the enumeration, the loop over the entries and
    the line with the total. *)
Lemma processDirectory_run sourceDir outputDir sinceDate rate maxOutputWidth pngFormat
    logMode w entries w0 :
  glob sourceDir w = (Ok entries, w0) ->
  exists vs o w1,
    visits sourceDir outputDir sinceDate rate maxOutputWidth pngFormat entries
      (passStart sinceDate logMode) w0 vs o w1 /\
    processDirectory sourceDir outputDir sinceDate rate maxOutputWidth pngFormat logMode w =
      match o with
      | Ok st => (Ok (latestProcessedAt st, processedCount st), totalLine logMode st w1)
      | Throw e => (Throw e, w1)
      end.
Proof.
  intros Hglob.
  destruct (for_of_visits sourceDir outputDir sinceDate rate maxOutputWidth pngFormat
              entries (passStart sinceDate logMode) w0) as (vs & Hvs).
  unfold processDirectory. unfold bind at 1. rewrite Hglob. unfold bind at 1.
  fold (passStart sinceDate logMode).
  destruct (for_of _ entries (passStart sinceDate logMode) w0) as [[st | e] w1];
    simpl in Hvs.
  - exists vs, (Ok st), w1. split; [exact Hvs |].
    unfold totalLine, bind, log, ret.
    destruct (isAlways logMode || (0 <? processedCount st)); reflexivity.
  - exists vs, (Throw e), w1. split; [exact Hvs | reflexivity].
Qed.

Lemma processDirectory_Ok_inv sourceDir outputDir sinceDate rate maxOutputWidth pngFormat
    logMode w result w' :
  processDirectory sourceDir outputDir sinceDate rate maxOutputWidth pngFormat logMode w
    = (Ok result, w') ->
  exists w0 vs st w1,
    files w0 = files w /\ clock w0 = clock w /\
    visits sourceDir outputDir sinceDate rate maxOutputWidth pngFormat
      (fast_glob (files w) sourceDir) (passStart sinceDate logMode) w0 vs (Ok st) w1 /\
    result = (latestProcessedAt st, processedCount st) /\
    w' = totalLine logMode st w1.
Proof.
  intros Hrun.
  destruct (glob sourceDir w) as [o w0] eqn:Hglob.
  destruct (glob_inv _ _ _ _ Hglob) as (Hf & Hc & _ & [-> | ->]).
  - destruct (processDirectory_run sourceDir outputDir sinceDate rate maxOutputWidth
                pngFormat logMode w _ w0 Hglob) as (vs & o & w1 & Hvs & Heq).
    rewrite Heq in Hrun. destruct o as [st | e]; [| discriminate].
    injection Hrun as <- <-. exists w0, vs, st, w1. auto.
  - unfold processDirectory in Hrun. unfold bind at 1 in Hrun.
    rewrite Hglob in Hrun. discriminate.
Qed.

Lemma totalLine_frame logMode st w :
  files (totalLine logMode st w) = files w /\ clock (totalLine logMode st w) = clock w /\
  faults (totalLine logMode st w) = faults w.
Proof. unfold totalLine. destruct (_ || _); auto. Qed.

Lemma processDirectory_spec sourceDir outputDir sinceDate rate maxOutputWidth pngFormat
    logMode w :
  wp (processDirectory sourceDir outputDir sinceDate rate maxOutputWidth pngFormat logMode)
     (fun o w' =>
        clock w' = clock w /\
        (forall q,
           (forall p, In p (fast_glob (files w) sourceDir) ->
                      ~ In q (outputsOf sourceDir outputDir pngFormat p)) ->
           files w' !! q = files w !! q)) w.
Proof.
  unfold wp.
  destruct (glob sourceDir w) as [o w0] eqn:Hglob.
  destruct (glob_inv _ _ _ _ Hglob) as (Hf & Hc & _ & [-> | ->]).
  - destruct (processDirectory_run sourceDir outputDir sinceDate rate maxOutputWidth
                pngFormat logMode w _ w0 Hglob) as (vs & o & w1 & Hvs & ->).
    destruct (visits_frame _ _ _ _ _ _ _ _ _ _ _ _ Hvs) as (Hc1 & Hf1).
    destruct o as [st | e]; simpl.
    + destruct (totalLine_frame logMode st w1) as (-> & -> & _).
      split; [congruence |]. intros q Hq. rewrite (Hf1 q Hq). congruence.
    + split; [congruence |]. intros q Hq. rewrite (Hf1 q Hq). congruence.
  - assert (processDirectory sourceDir outputDir sinceDate rate maxOutputWidth pngFormat
              logMode w = (Throw EIO, w0)) as ->
      by (unfold processDirectory; unfold bind at 1; now rewrite Hglob).
    simpl. split; [exact Hc |]. intros q _. now rewrite Hf.
Qed.

Lemma readMetadata_spec metadataPath w :
  wp (readMetadata metadataPath)
     (fun o w' =>
        same_but_faults w w' /\
        match o with
        | Ok res => metadata_read metadataPath w res
        | Throw _ => True
        end) w.
Proof.
  unfold readMetadata, same_but_faults, metadata_read.
  apply wp_try_catch, wp_bind, wp_readFile.
  - intros fl f Hf. destruct (JSON_parse (data f)) as [r |] eqn:E.
    + apply wp_ret. simpl. split; [auto |]. left. eauto.
    + apply wp_throw, wp_throw. simpl. auto.
  - intros Hnone fl. apply wp_bind, wp_now, wp_ret. simpl. split; [auto |]. right. auto.
  - intros fl. apply wp_throw. simpl. auto.
Qed.

Lemma metadata_tmp_fresh (metadataPath : string) : metadataPath +:+ ".tmp" <> metadataPath.
Proof. apply tmpPathOf_fresh. Qed.

Lemma writeMetadata_spec metadataPath lastProcessedAt rate w :
  wp (writeMetadata metadataPath lastProcessedAt rate)
     (fun o w' =>
        clock w' = clock w /\ console w' = console w /\
        match o with
        | Ok _ =>
            lastProcessedAt <> InvalidDate /\
            files w' = <[metadataPath := recordFile lastProcessedAt rate w]>
                         (delete (metadataPath +:+ ".tmp") (files w))
        | Throw _ =>
            files w' = files w \/
            files w' = <[metadataPath +:+ ".tmp" := recordFile lastProcessedAt rate w]>
                         (files w)
        end) w.
Proof.
  unfold writeMetadata, recordFile, toISOString.
  destruct lastProcessedAt as [t |]; [| apply wp_bind, wp_throw; simpl; auto].
  apply wp_bind, wp_ret.
  apply wp_bind, wp_writeFile; [| now auto]. intros fl1.
  apply wp_fs_rename; simpl.
  - intros fl f _ E. now destruct (metadata_tmp_fresh metadataPath).
  - intros fl f Hf _. rewrite lookup_insert_eq in Hf. injection Hf as <-.
    rewrite delete_insert_eq. repeat split; auto; discriminate.
  - intros fl e. auto.
Qed.


Lemma runBatchProcess_spec sourceDir outputDir rate maxOutputWidth pngFormat metadataPath
    logMode forceBaselineWrite sinceOverride w :
  wp (runBatchProcess sourceDir outputDir rate maxOutputWidth pngFormat metadataPath
        logMode forceBaselineWrite sinceOverride)
     (fun o w' =>
        clock w' = clock w /\
        (forall q,
           (forall p, In p (fast_glob (files w) sourceDir) ->
                      ~ In q (outputsOf sourceDir outputDir pngFormat p)) ->
           files w' !! q = files w !! q) /\
        match o with
        | Ok r =>
            exists res vs,
              metadata_read metadataPath w res /\
              passVisits sourceDir outputDir
                (determineSince (lastProcessedAt (record res)) sinceOverride) rate
                maxOutputWidth pngFormat logMode w vs /\
              batch_processedCount r = Z.of_nat (length (processedTimes vs)) /\
              shouldWriteMetadata r =
                (0 <? batch_processedCount r) || negb (existed res) || forceBaselineWrite /\
              updatedLastProcessedAt r =
                computeUpdatedLastProcessedAt (lastProcessedAt (record res))
                  (latestOf (processedTimes vs)
                     (determineSince (lastProcessedAt (record res)) sinceOverride))
                  (batch_processedCount r) sinceOverride (shouldWriteMetadata r)
        | Throw _ => True
        end) w.
Proof.
  unfold runBatchProcess.
  apply wp_bind. eapply wp_mono; [apply readMetadata_spec |].
  intros [res | e] w1 ((Hfiles & Hclock & Hconsole) & Hres); [| now rewrite Hfiles, Hclock].
  set (sinceDate := determineSince (lastProcessedAt (record res)) sinceOverride).
  apply wp_bind.
  assert (Hgo : forall w2 : World, clock w2 = clock w -> files w2 = files w ->
    wp (let* result :=
          processDirectory sourceDir outputDir sinceDate rate maxOutputWidth pngFormat
            logMode in
        ret {| batch_processedCount := snd result;
               updatedLastProcessedAt :=
                 computeUpdatedLastProcessedAt (lastProcessedAt (record res)) (fst result)
                   (snd result) sinceOverride
                   ((0 <? snd result) || negb (existed res) || forceBaselineWrite);
               shouldWriteMetadata :=
                 (0 <? snd result) || negb (existed res) || forceBaselineWrite |})
       (fun o w' =>
          clock w' = clock w /\
          (forall q,
             (forall p, In p (fast_glob (files w) sourceDir) ->
                        ~ In q (outputsOf sourceDir outputDir pngFormat p)) ->
             files w' !! q = files w !! q) /\
          match o with
          | Ok r =>
              exists res vs,
                metadata_read metadataPath w res /\
                passVisits sourceDir outputDir
                  (determineSince (lastProcessedAt (record res)) sinceOverride) rate
                  maxOutputWidth pngFormat logMode w vs /\
                batch_processedCount r = Z.of_nat (length (processedTimes vs)) /\
                shouldWriteMetadata r =
                  (0 <? batch_processedCount r) || negb (existed res) || forceBaselineWrite /\
                updatedLastProcessedAt r =
                  computeUpdatedLastProcessedAt (lastProcessedAt (record res))
                    (latestOf (processedTimes vs)
                       (determineSince (lastProcessedAt (record res)) sinceOverride))
                    (batch_processedCount r) sinceOverride (shouldWriteMetadata r)
          | Throw _ => True
          end) w2).
  { intros w2 Hclock2 Hfiles2.
    apply wp_bind. unfold wp at 1.
    pose proof (processDirectory_spec sourceDir outputDir sinceDate rate maxOutputWidth
                  pngFormat logMode w2) as Hspec. unfold wp in Hspec.
    destruct (processDirectory sourceDir outputDir sinceDate rate maxOutputWidth pngFormat
                logMode w2) as [[result | e] w3] eqn:Hpass; simpl in Hspec |- *;
      destruct Hspec as (Hclock3 & Hframe).
    - apply wp_ret. split; [congruence |]. split.
      + intros q Hq. rewrite Hframe, Hfiles2; [reflexivity |]. now rewrite Hfiles2.
      + destruct (processDirectory_Ok_inv _ _ _ _ _ _ _ _ _ _ Hpass)
          as (w0 & vs & st & w4 & Hf0 & Hc0 & Hvs & -> & _).
        destruct (visits_totals _ _ _ _ _ _ _ _ _ _ _ _ Hvs st eq_refl)
          as (Hcount & Hlatest).
        simpl in Hcount, Hlatest.
        exists res, vs. simpl. split; [exact Hres |]. split.
        { exists w0, st, w4. rewrite <- Hfiles2. split; [exact Hf0 |].
          split; [congruence | exact Hvs]. }
        split; [exact Hcount |]. split; [reflexivity |]. now rewrite Hlatest.
    - split; [congruence |]. split; [| exact I].
      intros q Hq. rewrite Hframe, Hfiles2; [reflexivity |]. now rewrite Hfiles2. }
  destruct (isAlways logMode).
  - apply wp_log. apply Hgo; simpl; auto.
  - apply wp_ret. apply Hgo; auto.
Qed.

End Pass.
(** ** Selection, write-eligibility and the baseline *)

Lemma fold_left_max_shift (ts : list Z) (a b : Z) :
  fold_left Z.max ts (Z.max a b) = Z.max a (fold_left Z.max ts b).
Proof.
  revert b. induction ts as [| t ts IH]; intros b; simpl; [reflexivity |].
  rewrite <- IH. f_equal. lia.
Qed.

(** The latest of the previous baseline and of processed files that are all
    newer than the baseline of the pass. *)
Lemma fold_left_max_newer (ts : list Z) (previous since : Z) :
  ts <> [] -> (forall t, In t ts -> since < t) ->
  Z.max previous (fold_left Z.max ts since) = fold_left Z.max ts previous.
Proof.
  destruct ts as [| t ts]; [congruence |]. intros _ Hnewer. simpl.
  rewrite <- fold_left_max_shift. f_equal.
  specialize (Hnewer t (or_introl eq_refl)). lia.
Qed.

Lemma processedTimes_In (vs : list Visit) (t : Z) :
  In t (processedTimes vs) ->
  exists v, In v vs /\ handed v = true /\ visit_mtime v = t.
Proof.
  induction vs as [| v vs IH]; simpl; [contradiction |].
  destruct v as [p s | p s [r | e]]; simpl.
  - intros Hin. destruct (IH Hin) as (v & Hv & Hh). eauto.
  - intros [<- | Hin].
    + exists (Handed p s (Ok r)). auto.
    + destruct (IH Hin) as (v & Hv & Hh). eauto.
  - intros Hin. destruct (IH Hin) as (v & Hv & Hh). eauto.
Qed.

Section BatchClaims.

Context `{Platform}.

(** C5, as the code has it.  [processDirectory] enumerates the entries and
    visits them in order.  It hands an entry to the commit ([shrinkImage]
    runs on it and its outcome is reported) exactly when the comparison
    [mtime <= baseline] fails.  For a baseline that is a valid date this is
    exactly when the modification time is strictly greater than the
    baseline: an entry modified at the baseline is skipped, an entry modified
    any time later is handed on.  For the Invalid Date the comparison fails
    for every entry, and every entry is handed to the commit.  A pass that
    returns has visited every enumerated entry and counts the commits that
    returned; a pass that throws has stopped at the [stat] of the entry after
    its last visit. *)
Theorem processDirectory_selects_strictly_newer (sourceDir outputDir : string)
    (sinceDate : Date) (rate : Q) (maxOutputWidth : option Z) (pngFormat : PngFormat)
    (logMode : LogMode) (w w0 : World) (entries : list string) :
  glob sourceDir w = (Ok entries, w0) ->
  entries = fast_glob (files w) sourceDir /\
  exists vs o w1,
    visits sourceDir outputDir sinceDate rate maxOutputWidth pngFormat entries
      (passStart sinceDate logMode) w0 vs o w1 /\
    processDirectory sourceDir outputDir sinceDate rate maxOutputWidth pngFormat logMode w =
      match o with
      | Ok st => (Ok (latestProcessedAt st, processedCount st), totalLine logMode st w1)
      | Throw e => (Throw e, w1)
      end /\
    match o with
    | Ok st =>
        map visit_path vs = entries /\
        processedCount st = Z.of_nat (length (processedTimes vs))
    | Throw _ => exists filePath rest, entries = map visit_path vs ++ filePath :: rest
    end /\
    forall v, In v vs ->
      match sinceDate with
      | ValidDate since => handed v = true <-> since < visit_mtime v
      | InvalidDate => handed v = true
      end.
Proof.
  intros Hglob. split.
  { destruct (glob_inv _ _ _ _ Hglob) as (_ & _ & _ & [E | E]); congruence. }
  destruct (processDirectory_run sourceDir outputDir sinceDate rate maxOutputWidth
              pngFormat logMode w entries w0 Hglob) as (vs & o & w1 & Hvs & Hrun).
  exists vs, o, w1. split; [exact Hvs |]. split; [exact Hrun |]. split.
  - pose proof (visits_paths _ _ _ _ _ _ _ _ _ _ _ _ Hvs) as Hpaths.
    destruct o as [st | e]; [| exact Hpaths]. split; [exact Hpaths |].
    destruct (visits_totals _ _ _ _ _ _ _ _ _ _ _ _ Hvs st eq_refl) as (Hcount & _).
    exact Hcount.
  - intros v Hv. rewrite (visits_selection _ _ _ _ _ _ _ _ _ _ _ _ Hvs v Hv).
    destruct sinceDate as [since |]; simpl; [| reflexivity].
    rewrite negb_true_iff, Z.leb_gt. reflexivity.
Qed.







(** C2, as the code has it.  A pass found a stored record with a valid date
    [previous].  The date it hands to the writer is [previous] again when no
    write is due; when a write is due and no file was processed it is the
    override, or [previous] without one; when files were processed it is the
    latest of [previous] and their modification times.  So it is not earlier
    than [previous] provided the pass processed a file, or ran without an
    override, or the override is not earlier than [previous]; and the
    writer stores the date it is handed. *)
Theorem lastProcessedAt_does_not_regress (sourceDir outputDir : string) (rate : Q)
    (maxOutputWidth : option Z) (pngFormat : PngFormat) (metadataPath : string)
    (logMode : LogMode) (forceBaselineWrite : bool) (sinceOverride : option Z)
    (w w1 : World) (r : BatchResult) (f : File) (stored : MetadataRecord) (previous : Z) :
  runBatchProcess sourceDir outputDir rate maxOutputWidth pngFormat metadataPath logMode
    forceBaselineWrite (ValidDate <$> sinceOverride) w = (Ok r, w1) ->
  files w !! metadataPath = Some f ->
  JSON_parse (data f) = Some stored ->
  lastProcessedAt stored = ValidDate previous ->
  exists (vs : list Visit) (updated : Z),
    passVisits sourceDir outputDir (ValidDate (default previous sinceOverride)) rate
      maxOutputWidth pngFormat logMode w vs /\
    batch_processedCount r = Z.of_nat (length (processedTimes vs)) /\
    updatedLastProcessedAt r = ValidDate updated /\
    (shouldWriteMetadata r = false -> updated = previous) /\
    (shouldWriteMetadata r = true -> processedTimes vs = [] ->
     updated = default previous sinceOverride) /\
    (shouldWriteMetadata r = true -> processedTimes vs <> [] ->
     updated = fold_left Z.max (processedTimes vs) previous) /\
    ((0 < batch_processedCount r \/ sinceOverride = None \/
      exists d, sinceOverride = Some d /\ previous <= d) ->
     previous <= updated) /\
    forall w2,
      writeMetadata metadataPath (updatedLastProcessedAt r) rate w1 = (Ok tt, w2) ->
      files w2 !! metadataPath = Some (recordFile (ValidDate updated) rate w).
Proof.
  intros Hbatch Hf Hstored Hprevious.
  pose proof (wp_run _ _ _ _ _
    (runBatchProcess_spec sourceDir outputDir rate maxOutputWidth pngFormat metadataPath
       logMode forceBaselineWrite (ValidDate <$> sinceOverride) w) Hbatch)
    as (Hclock1 & _ & res & vs & Hread & Hvisits & Hcount & Hshould & Hupdated).
  assert (record res = stored) as Hrec.
  { destruct Hread as [(_ & f' & Hf' & Hparse) | (_ & Hnone & _)]; congruence. }
  rewrite Hrec, Hprevious in Hupdated, Hvisits.
  assert (determineSince (ValidDate previous) (ValidDate <$> sinceOverride)
          = ValidDate (default previous sinceOverride)) as Hsince.
  { destruct sinceOverride; reflexivity. }
  rewrite Hsince in Hupdated, Hvisits. rewrite latestOf_valid in Hupdated.
  set (since := default previous sinceOverride) in *.
  set (ts := processedTimes vs) in *.
  assert (Hnewer : forall t, In t ts -> since < t).
  { intros t Ht. destruct (processedTimes_In vs t Ht) as (v & Hv & Hhanded & <-).
    destruct Hvisits as (w0 & st' & w3 & _ & _ & Hvs).
    rewrite (visits_selection _ _ _ _ _ _ _ _ _ _ _ _ Hvs v Hv) in Hhanded.
    simpl in Hhanded. rewrite negb_true_iff, Z.leb_gt in Hhanded. exact Hhanded. }
  set (updated :=
         if negb (shouldWriteMetadata r) then previous
         else match ts with [] => since | _ => fold_left Z.max ts previous end).
  assert (updatedLastProcessedAt r = ValidDate updated) as Hvalue.
  { rewrite Hupdated. unfold computeUpdatedLastProcessedAt, updated.
    destruct (shouldWriteMetadata r); cbn [negb]; [| reflexivity].
    rewrite Hcount. destruct ts as [| t ts'] eqn:Ets.
    - simpl. destruct sinceOverride; reflexivity.
    - assert ((Z.of_nat (length (t :: ts')) =? 0) = false) as ->
        by (apply Z.eqb_neq; simpl; lia).
      unfold maxDate, date_gt.
      rewrite <- (fold_left_max_newer (t :: ts') previous since) by (auto; discriminate).
      destruct (Z.ltb_spec (fold_left Z.max (t :: ts') since) previous);
        f_equal; lia. }
  exists vs, updated. fold ts. split; [exact Hvisits |]. split; [exact Hcount |].
  split; [exact Hvalue |].
  split; [intros E; unfold updated; now rewrite E |].
  split; [intros E Ets; unfold updated; now rewrite E, Ets |].
  split.
  { intros E Ets. unfold updated. rewrite E. cbn [negb].
    destruct ts; [congruence | reflexivity]. }
  split.
  - intros Hcond. unfold updated.
    destruct (shouldWriteMetadata r); cbn [negb]; [| lia].
    destruct ts as [| t ts'] eqn:Ets.
    + rewrite Hcount in Hcond. simpl in Hcond. subst since.
      destruct Hcond as [Hpos | [-> | (d & -> & Hd)]]; simpl; lia.
    + destruct (fold_left_max_bounds (t :: ts') previous) as (Hbound & _). exact Hbound.
  - intros w2 Hwrite.
    pose proof (wp_run _ _ _ _ _
      (writeMetadata_spec metadataPath (updatedLastProcessedAt r) rate w1) Hwrite)
      as (_ & _ & _ & Hfiles).
    rewrite Hfiles, lookup_insert_eq, Hvalue. unfold recordFile. now rewrite Hclock1.
Qed.

End BatchClaims.
(** ** Runs of the directory mode on a concrete tree *)
Module RunExamples.

Import Mock Fixtures.

Example run_without_faults :
  fst (run []) = Ok tt /\
  console (snd (run [])) =
    [LogStart "/src" "/out" 1000; LogFile "a.jpg" 10 5; LogFile "b.jpg" 10 5; LogTotal 2] /\
  stored (snd (run [])) = Some {| lastProcessedAt := 3000; lastRate := 1 # 2 |} /\
  files (snd (run [])) !! "/out/old.jpg" = None.
Proof. vm_compute. auto. Qed.

Lemma processDirectory_selects_strictly_newer_witness :
  exists vs : list Visit,
    map visit_path vs = ["/src/old.jpg"; "/src/a.jpg"; "/src/b.jpg"] /\
    (forall v, In v vs -> handed v = true <-> 1000 < visit_mtime v) /\
    Z.of_nat (length (processedTimes vs)) = 2.
Proof.
  destruct (processDirectory_selects_strictly_newer "/src" "/out" (ValidDate 1000) (1 # 2)
              None png always (world tree 5000 []) (world tree 5000 [])
              ["/src/old.jpg"; "/src/a.jpg"; "/src/b.jpg"])
    as (_ & vs & o & w1 & _ & Hrun & Hvisited & Hselected).
  - vm_compute. reflexivity.
  - assert (fst (processDirectory "/src" "/out" (ValidDate 1000) (1 # 2) None png always
                   (world tree 5000 [])) = Ok (ValidDate 3000, 2)) as Hpass
      by (vm_compute; reflexivity).
    rewrite Hrun in Hpass. destruct o as [st | e]; [| discriminate Hpass].
    simpl in Hpass. injection Hpass as _ Hcount.
    destruct Hvisited as (Hpaths & Hcounted).
    exists vs. split; [exact Hpaths |]. split; [exact Hselected |]. congruence.
Defined.

(** C5, as the spec states it, fails.  The record of the directory holds a
    date text that is no date, so the baseline of the run is the Invalid
    Date.  No modification time is greater than it, yet the run hands every
    file to the commit, [old.jpg] included; then the writer throws on the
    Invalid Date and no record is written. *)
Lemma invalid_baseline_selects_every_file :
  stored (world undatedTree 5000 []) =
    Some {| lastProcessedAt := InvalidDate; lastRate := 9 # 10 |} /\
  date_gt (ValidDate 1000) InvalidDate = false /\
  console (snd undatedRun) =
    [LogStart "/src" "/out" InvalidDate; LogFile "old.jpg" 10 5; LogFile "a.jpg" 10 5;
     LogFile "b.jpg" 10 5; LogTotal 3] /\
  is_Some (files (snd undatedRun) !! "/out/old.jpg") /\
  fst undatedRun = Throw RangeError /\
  files (snd undatedRun) !! metadataPath = undatedTree !! metadataPath.
Proof. vm_compute. repeat split; eauto. Qed.


Lemma lastProcessedAt_does_not_regress_witness :
  exists (vs : list Visit) (updated : Z),
    2 = Z.of_nat (length (processedTimes vs)) /\
    ValidDate 3000 = ValidDate updated /\
    (processedTimes vs <> [] -> updated = fold_left Z.max (processedTimes vs) 1000) /\
    1000 <= updated /\
    forall w2,
      writeMetadata metadataPath (ValidDate 3000) (1 # 2) (snd pass) = (Ok tt, w2) ->
      files w2 !! metadataPath =
        Some (recordFile (ValidDate updated) (1 # 2) (world tree 5000 [])).
Proof.
  destruct (lastProcessedAt_does_not_regress "/src" "/out" (1 # 2) None png metadataPath
              always false None (world tree 5000 []) (snd pass)
              {| batch_processedCount := 2; updatedLastProcessedAt := ValidDate 3000;
                 shouldWriteMetadata := true |}
              {| data := recordBytes 1000; mtime := 1000 |}
              {| lastProcessedAt := ValidDate 1000; lastRate := 9 # 10 |} 1000)
    as (vs & updated & _ & Hcount & Hvalue & _ & _ & Hlatest & Hmono & Hwrite).
  - vm_compute. reflexivity.
  - vm_compute. reflexivity.
  - vm_compute. reflexivity.
  - reflexivity.
  - exists vs, updated. split; [exact Hcount |]. split; [exact Hvalue |].
    split; [exact (Hlatest eq_refl) |]. split; [| exact Hwrite].
    apply Hmono. left. simpl. lia.
Defined.

(** C2, as the spec states it, fails.  A first run with [--since 9000] in a
    directory without a record stores 9000; a later run with [--from-now] at
    time 6000 finds nothing to process and stores 6000. *)
Lemma lastProcessedAt_regresses_after_from_now :
  fst sinceRun = Ok tt /\
  stored (snd sinceRun) = Some {| lastProcessedAt := 9000; lastRate := 1 # 2 |} /\
  fst fromNowRun = Ok tt /\
  stored (snd fromNowRun) = Some {| lastProcessedAt := 6000; lastRate := 1 # 2 |} /\
  6000 < 9000.
Proof. vm_compute. auto. Qed.

(** C4 at its failing input.  The [stat] of [a.jpg] in the loop of
    [processDirectory] throws (the fifth call of the run): the run ends with
    that throw, [b.jpg] is never visited, the tree is untouched and the
    console holds the start line only.  When instead the first call inside
    the commit of [a.jpg] throws (the sixth call), the failure is reported
    and the pass goes on to [b.jpg]. *)
Theorem stat_failure_aborts_the_pass :
  (fst (run [false; false; false; false; true]) = Throw EIO /\
   files (snd (run [false; false; false; false; true])) = tree /\
   console (snd (run [false; false; false; false; true])) = [LogStart "/src" "/out" 1000])
  /\
  (fst (run [false; false; false; false; false; true]) = Ok tt /\
   console (snd (run [false; false; false; false; false; true])) =
     [LogStart "/src" "/out" 1000; LogFileError "a.jpg" EIO; LogFile "b.jpg" 10 5;
      LogTotal 1] /\
   is_Some (files (snd (run [false; false; false; false; false; true])) !! "/out/b.jpg")).
Proof. vm_compute. repeat split; eauto. Qed.

(** C6 at its failing input.  Watch mode is started with [--from-now] at
    time 5000 in a directory that has a record, and the timer ticks at 6000
    and 7000.  No cycle processes a file (the console holds the watch banner
    only), yet the metadata file carries the time of the last tick: every
    idle cycle wrote it again.  Without [--from-now] the first cycle writes
    the record and the idle cycles at 6000 and 7000 leave it alone. *)
Theorem idle_from_now_cycles_rewrite_metadata :
  (is_Some (tree !! metadataPath) /\
   fst (watchRun (withFromNow options)) = Ok tt /\
   console (snd (watchRun (withFromNow options))) = [LogWatchStart] /\
   files (snd (watchRun (withFromNow options))) !! metadataPath =
     Some {| data := JSON_stringify {| lastProcessedAt := 5000; lastRate := 1 # 2 |};
             mtime := 7000 |})
  /\
  (fst (watchRun options) = Ok tt /\
   mtime <$> files (snd (watchRun options)) !! metadataPath = Some 5000).
Proof. vm_compute. repeat split; eauto. Qed.

End RunExamples.
